(** * biliSummaryCLI: the long-audio transcription pipeline

    A shallow embedding of [core/transcriber.py] (class [Transcriber]) and of
    the [AudioProcessor] methods it calls ([get_audio_duration],
    [compress_for_api], [split_audio] of [core/audio_processor.py]), followed
    by the properties of the pipeline.  The embedding goes on with the rest
    of the two modules ([unload_model], [_format_time], [process_audio]), the
    audio steps of [ProcessThread.run] and [safe_filename], and with their
    properties.

    Conventions of the embedding.
    - Python code that reads and writes the host (files, the progress
      callback, the OpenAI client, ffmpeg) is a state-and-exception monad
      [M]: a computation takes a [State] and returns either the raised
      exception or a value, with the new state.
    - An exception is its class and its message, [str(e)]: the handlers of
      the module and its callers read nothing else of it.
    - Everything the program does not decide itself (ffmpeg, ffprobe, the
      remote service, the local Whisper model, [os.remove], the order in
      which futures complete) is a field of a [World]; each answer may depend
      on the events of the job so far, so a service may fail once and succeed
      later.
    - The calls and callbacks that the properties count are appended to
      [trace], in program order.  The futures of the thread pool are run in
      submission order before the collecting loop reads them in completion
      order: the executor has run all of them when the [with] block is left,
      and no property depends on how their requests interleave.
    - A Python float is taken at its exact rational value ([Q]); Python
      compares a float with an int exactly, and the divisions by [1024*1024]
      are exact.  [print] is not modelled. *)

From Stdlib Require Import QArith Qabs Qround ZArith String Ascii List DecimalString Permutation Lia.
From stdpp Require Import gmap strings list.

Open Scope string_scope.

(** ** Python values *)

Definition path := string.

Definition nl : string := String (ascii_of_nat 10) EmptyString.

(** [needle in hay] on [str]. *)
Definition str_in (needle hay : string) : bool :=
  match String.index 0 needle hay with Some _ => true | None => false end.

(** [str(n)] for an [int]. *)
Definition str_of_nat (n : nat) : string := NilEmpty.string_of_uint (Nat.to_uint n).
Definition str_of_Z (z : Z) : string := NilEmpty.string_of_int (Z.to_int z).

(** [int(x)] for a float: truncation towards zero. *)
Definition py_int (x : Q) : Z := Z.quot (Qnum x) (Z.pos (Qden x)).

(** [f"{x:.1f}"]: one decimal, the exact value rounded half to even. *)
Definition round_half_even (x : Q) : Z :=
  let n := Qnum x in
  let d := Z.pos (Qden x) in
  match (2 * (n mod d) ?= d)%Z with
  | Lt => (n / d)%Z
  | Gt => (n / d + 1)%Z
  | Eq => if Z.even (n / d) then (n / d)%Z else (n / d + 1)%Z
  end.

Definition fmt_1f (x : Q) : string :=
  let tenths := round_half_even (Qabs x * 10) in
  (if (Qnum x <? 0)%Z then "-" else "")
  ++ str_of_Z (tenths / 10) ++ "." ++ str_of_Z (tenths mod 10).

(** [a > b] on numbers. *)
Definition Qgt_bool (a b : Q) : bool := negb (Qle_bool a b).

(** The truth value of an [Optional[str]]. *)
Definition truthy (s : option string) : bool :=
  match s with
  | None | Some EmptyString => false
  | Some _ => true
  end.

(** [a or b] on ints: [a] when it is truthy (non-zero), else [b]. *)
Definition py_or (a b : Z) : Z := if Z.eqb a 0 then b else a.

(** [os.path.splitext(p)[0]] (POSIX): the extension starts at the last dot of
    the last path component, unless that component has only dots before it. *)
Fixpoint split_last_dot (rev_p ext : list ascii) : option (list ascii * list ascii) :=
  match rev_p with
  | [] => None
  | c :: rest =>
      if Ascii.eqb c "/" then None
      else if Ascii.eqb c "." then Some (rest, c :: ext)
      else split_last_dot rest (c :: ext)
  end.

Fixpoint has_name (rev_root : list ascii) : bool :=
  match rev_root with
  | [] => false
  | c :: rest =>
      if Ascii.eqb c "/" then false
      else if Ascii.eqb c "." then has_name rest
      else true
  end.

Definition splitext (p : string) : string * string :=
  match split_last_dot (rev (list_ascii_of_string p)) [] with
  | Some (rev_root, ext) =>
      if has_name rev_root
      then (string_of_list_ascii (rev rev_root), string_of_list_ascii ext)
      else (p, "")
  | None => (p, "")
  end.

Inductive exn_class :=
| Exception | RuntimeError | FileNotFoundError | ValueError | OSError | TypeError | APIError.

Record exn := Exn { class_of : exn_class; str : string }.

(** ** The remote service *)

Record Request := {
  req_model : string;
  req_file : path;
  req_language : option string;
  req_response_format : string }.

(** The [usage] object of a response; [None] is an absent attribute. *)
Record Usage := {
  prompt_tokens : option Z;
  input_tokens : option Z;
  completion_tokens : option Z;
  output_tokens : option Z;
  total_tokens : option Z }.

Definition getattr (a : option Z) (default : Z) : Z :=
  match a with Some v => v | None => default end.

Record Response := {
  resp_text : string;
  resp_language : option string;
  resp_duration : option Q;
  resp_usage : option Usage }.

(** ** What a job returns *)

Record Segment := { seg_start : Q; seg_end : Q; seg_text : string }.

(** The dict [total_usage] of the chunked path. *)
Record UsageTotals := { sum_prompt : Z; sum_completion : Z; sum_total : Z }.

Inductive usage_value :=
| UsageObj (u : Usage)
| UsageDict (u : UsageTotals).

(** The returned dict; [None] in [r_duration], [r_segments], [r_usage] is an
    absent key, [None] in [r_language] is Python's [None]. *)
Record Result := {
  r_text : string;
  r_language : option string;
  r_duration : option Q;
  r_segments : option (list Segment);
  r_usage : option usage_value }.

(** ** Events, world and state *)

Inductive Event :=
| EvProgress (pct : Q) (label : string)   (* progress_callback(pct, label) *)
| EvCreate (r : Request)                  (* client.audio.transcriptions.create *)
| EvCompress (src : path)                 (* compress_for_api entered *)
| EvChunked (src : path)                  (* _transcribe_chunked entered *)
| EvSplit (src : path)                    (* ffmpeg -f segment run *)
| EvRemove (p : path)                     (* os.remove attempted *)
| EvLocal (p : path) (fp16 : bool).       (* model.transcribe *)

Record World := {
  (* [ffmpeg -version] exits with status 0 *)
  ffmpeg_version_ok : list Event -> bool;
  (* the duration ffprobe reports; [None] when probing or parsing fails *)
  ffprobe_duration : list Event -> path -> option Q;
  (* os.path.getsize, in bytes *)
  getsize : list Event -> path -> Z;
  (* the compressing ffmpeg run (source, kbps, output): [Some stderr] on a
     non-zero exit *)
  ffmpeg_compress : list Event -> path -> Z -> path -> option string;
  (* the segmenting ffmpeg run followed by the sorted glob: the segment
     files, or the stderr of a non-zero exit *)
  ffmpeg_segment : list Event -> path -> Z -> string + list path;
  (* one request to the transcription service *)
  remote_create : list Event -> Request -> exn + Response;
  (* os.remove raises *)
  os_remove_fails : list Event -> path -> bool;
  (* whisper.load_model raises *)
  whisper_load : list Event -> string -> option exn;
  (* model.transcribe(path, language, fp16) *)
  whisper_transcribe : list Event -> path -> option string -> bool -> exn + Result;
  (* concurrent.futures.as_completed over n futures: the indices in the order
     in which they complete *)
  as_completed : list Event -> nat -> list nat }.

Record Transcriber := {
  model_name : string;
  api_key : option string;
  base_url : option string }.

Record State := {
  files : gset path;        (* the files that exist *)
  trace : list Event;       (* the events so far, oldest first *)
  client : bool;            (* self.client is not None *)
  model : bool }.           (* self.model is not None *)

(** ** The monad of Python statements *)

Definition M (A : Type) : Type := State -> (exn + A) * State.

Definition ret {A} (a : A) : M A := fun st => (inr a, st).

Definition bind {A B} (c : M A) (k : A -> M B) : M B :=
  fun st =>
    match c st with
    | (inl e, st') => (inl e, st')
    | (inr a, st') => k a st'
    end.

Definition raise {A} (e : exn) : M A := fun st => (inl e, st).

Notation "x <- c ;; k" := (bind c (fun x => k))
  (at level 100, c at next level, right associativity).
Notation "c ;;; k" := (bind c (fun _ => k))
  (at level 100, right associativity).

(** [try: body except Exception as e: handler e] *)
Definition try_except {A} (body : M A) (handler : exn -> M A) : M A :=
  fun st =>
    match body st with
    | (inl e, st') => handler e st'
    | (inr a, st') => (inr a, st')
    end.

(** [try: body finally: cleanup] *)
Definition try_finally {A} (body : M A) (cleanup : M unit) : M A :=
  fun st =>
    match body st with
    | (r, st') =>
        match cleanup st' with
        | (inl e, st'') => (inl e, st'')
        | (inr _, st'') => (r, st'')
        end
    end.

(** The state once the event [e] has happened. *)
Definition log (st : State) (e : Event) : State :=
  {| files := files st; trace := trace st ++ [e];
     client := client st; model := model st |}.

Definition emit (e : Event) : M unit := fun st => (inr tt, log st e).

Definition ask {A} (f : list Event -> A) : M A :=
  fun st => (inr (f (trace st)), st).

Definition os_path_exists (p : path) : M bool :=
  fun st => (inr (bool_decide (p ∈ files st)), st).

Definition set_files (f : gset path -> gset path) : M unit :=
  fun st => (inr tt, {| files := f (files st); trace := trace st;
                        client := client st; model := model st |}).

Definition set_client : M unit :=
  fun st => (inr tt, {| files := files st; trace := trace st;
                        client := true; model := model st |}).

Definition set_model (b : bool) : M unit :=
  fun st => (inr tt, {| files := files st; trace := trace st;
                        client := client st; model := b |}).

Definition get_model : M bool := fun st => (inr (model st), st).

(** [if progress_callback: progress_callback(pct, label)] *)
Definition progress (cb : bool) (pct : Q) (label : string) : M unit :=
  if cb then emit (EvProgress pct label) else ret tt.

(** [open(p, "rb")] *)
Definition open_rb (p : path) : M unit :=
  ex <- os_path_exists p ;;
  if ex then ret tt
  else raise (Exn FileNotFoundError ("[Errno 2] No such file or directory: '" ++ p ++ "'")).

(** ** [core/audio_processor.py]: class [AudioProcessor] *)

Module AudioProcessor.
Section Methods.
Variable w : World.

(** [AudioProcessor()]: [__init__] runs [_check_ffmpeg]. *)
Definition init : M unit :=
  ok <- ask (ffmpeg_version_ok w) ;;
  if ok then ret tt
  else raise (Exn RuntimeError
    ("FFmpeg未安装或不在PATH中。" ++ nl ++ "请安装FFmpeg:" ++ nl
     ++ "  macOS: brew install ffmpeg" ++ nl
     ++ "  Ubuntu: sudo apt install ffmpeg" ++ nl
     ++ "  Windows: choco install ffmpeg")).

(** Any failure of ffprobe or of the parsing of its output yields 0. *)
Definition _get_audio_duration (audio_path : path) : M Q :=
  d <- ask (fun tr => ffprobe_duration w tr audio_path) ;;
  ret (match d with Some x => x | None => 0%Q end).

Definition get_audio_duration (audio_path : path) : M Q :=
  _get_audio_duration audio_path.

Definition bitrate_kbps (max_size_mb : Z) (duration : Q) : Z :=
  if Qle_bool duration 0 then 32%Z
  else
    let target_size_bits := (max_size_mb * 1024 * 1024 * 8)%Z in
    let target_bitrate_kbps := py_int (inject_Z target_size_bits / duration / 1000)%Q in
    Z.min (Z.max target_bitrate_kbps 12) 64.

(** [compress_for_api(input_path, progress_callback=...)], with the defaults
    [output_path=None] and [max_size_mb=24]. *)
Definition compress_for_api (input_path : path) (cb : bool) : M path :=
  emit (EvCompress input_path) ;;;
  ex <- os_path_exists input_path ;;
  if negb ex then raise (Exn FileNotFoundError ("音频文件不存在: " ++ input_path))
  else
    let output_path := fst (splitext input_path) ++ "_compressed.mp3" in
    duration <- _get_audio_duration input_path ;;
    let kbps := bitrate_kbps 24 duration in
    progress cb 62 ("正在压缩音频以适应 API 限制 (目标码率: " ++ str_of_Z kbps ++ "k)...") ;;;
    r <- ask (fun tr => ffmpeg_compress w tr input_path kbps output_path) ;;
    match r with
    | None => set_files (fun fs => {[output_path]} ∪ fs) ;;; ret output_path
    | Some error_msg => raise (Exn Exception ("压缩失败: " ++ error_msg))
    end.

(** [split_audio(input_path, segment_seconds=...)], with [output_dir=None]. *)
Definition split_audio (input_path : path) (segment_seconds : Z) : M (list path) :=
  ex <- os_path_exists input_path ;;
  if negb ex then raise (Exn FileNotFoundError ("音频文件不存在: " ++ input_path))
  else
    emit (EvSplit input_path) ;;;
    r <- ask (fun tr => ffmpeg_segment w tr input_path segment_seconds) ;;
    match r with
    | inl stderr => raise (Exn Exception ("音频切片失败: " ++ stderr))
    | inr chunks => set_files (fun fs => list_to_set chunks ∪ fs) ;;; ret chunks
    end.

End Methods.
End AudioProcessor.

(** ** [core/transcriber.py]: class [Transcriber] *)

Definition AVAILABLE_MODELS : list string :=
  ["tiny"; "base"; "small"; "medium"; "large"; "turbo";
   "gpt-4o-transcribe"; "gpt-4o-mini-transcribe"; "whisper-1"].

(** [Transcriber(model_name_or_path, api_key, base_url)] *)
Definition __init__ (model_name_or_path : string) (api_key base_url : option string)
  : Transcriber :=
  {| model_name := if String.eqb model_name_or_path "turbo" then "large-v3-turbo"
                   else model_name_or_path;
     api_key := api_key;
     base_url := base_url |}.

Definition _is_api_model (self : Transcriber) : bool :=
  existsb (String.eqb (model_name self))
    ["gpt-4o-transcribe"; "gpt-4o-mini-transcribe"; "whisper-1"].

(** One segment's future result: the dict [_transcribe_part] returns. *)
Record PartData := { pd_index : nat; pd_text : string; pd_usage : option Usage }.

(** The mutable data of the collecting loop of [_transcribe_chunked]. *)
Record Batch := {
  results : list (option string);
  total_usage : UsageTotals;
  completed_count : nat }.

(** The statements under [if data['usage']:]; the two field names are those
    of the OpenAI standard and of compatible services. *)
Definition p_tokens (u : Usage) : Z :=
  py_or (getattr (prompt_tokens u) 0) (getattr (input_tokens u) 0).

Definition c_tokens (u : Usage) : Z :=
  py_or (getattr (completion_tokens u) 0) (getattr (output_tokens u) 0).

Definition add_usage (total : UsageTotals) (u : Usage) : UsageTotals :=
  {| sum_prompt := sum_prompt total + p_tokens u;
     sum_completion := sum_completion total + c_tokens u;
     sum_total := sum_total total + getattr (total_tokens u) 0 |}.

(** [sep.join(slots)]: every item must be a [str]. *)
Fixpoint all_texts (slots : list (option string)) : option (list string) :=
  match slots with
  | [] => Some []
  | Some s :: rest =>
      match all_texts rest with Some l => Some (s :: l) | None => None end
  | None :: _ => None
  end.

Definition join (sep : string) (slots : list (option string)) : M string :=
  match all_texts slots with
  | Some texts => ret (String.concat sep texts)
  | None => raise (Exn TypeError "sequence item: expected str instance, NoneType found")
  end.

Section Methods.
Variable w : World.

Definition os_getsize (p : path) : M Z :=
  ex <- os_path_exists p ;;
  if ex then ask (fun tr => getsize w tr p)
  else raise (Exn OSError ("[Errno 2] No such file or directory: '" ++ p ++ "'")).

Definition os_remove (p : path) : M unit :=
  emit (EvRemove p) ;;;
  fails <- ask (fun tr => os_remove_fails w tr p) ;;
  if fails then raise (Exn OSError ("[Errno 13] Permission denied: '" ++ p ++ "'"))
  else set_files (fun fs => fs ∖ {[p]}).

(** [self.client.audio.transcriptions.create(...)] *)
Definition create (r : Request) : M Response :=
  emit (EvCreate r) ;;;
  o <- ask (fun tr => remote_create w tr r) ;;
  match o with
  | inl e => raise e
  | inr response => ret response
  end.

Definition load_model (self : Transcriber) (cb : bool) : M unit :=
  if _is_api_model self then
    if negb (truthy (api_key self))
    then raise (Exn ValueError "使用在线转写模型需要提供 API Key")
    else set_client
  else
    loaded <- get_model ;;
    if loaded then ret tt
    else
      progress cb 75 ("加载模型: " ++ model_name self ++ "...") ;;;
      try_except
        (r <- ask (fun tr => whisper_load w tr (model_name self)) ;;
         match r with
         | Some e => raise e
         | None => set_model true ;;; progress cb 80 "模型加载完成"
         end)
        (fun e => raise (Exn Exception ("模型加载失败: " ++ str e))).

Definition _transcribe_part (i total_chunks : nat) (chunk_path : path)
    (model_name : string) (language : option string) : M PartData :=
  try_except
    (open_rb chunk_path ;;;
     response <- create {| req_model := model_name; req_file := chunk_path;
                           req_language := language;
                           req_response_format := "json" |} ;;
     ret {| pd_index := i; pd_text := resp_text response;
            pd_usage := resp_usage response |})
    (fun e => raise e).

(** A submitted future, run to its end: its result or the exception it holds. *)
Definition future {A} (c : M A) : M (exn + A) :=
  fun st => let (r, st') := c st in (inr r, st').

(** The futures of the dict comprehension, for [enumerate(chunks)] from [i].
    The executor runs every submitted future to its end before the [with]
    block is left, also when the collecting loop raises; here they run in
    submission order, before the loop reads their outcomes. *)
Fixpoint submit_all (i total_chunks : nat) (chunks : list path)
    (model_name : string) (language : option string) : M (list (exn + PartData)) :=
  match chunks with
  | [] => ret []
  | chunk_path :: rest =>
      f <- future (_transcribe_part i total_chunks chunk_path model_name language) ;;
      fs <- submit_all (S i) total_chunks rest model_name language ;;
      ret (f :: fs)
  end.

(** One iteration of [for future in as_completed(future_to_index)]. *)
Definition collect_one (cb : bool) (total_chunks : nat)
    (futures : list (exn + PartData)) (b : Batch) (index : nat) : M Batch :=
  match futures !! index with
  | Some (inr data) =>
      let results' := <[index := Some (pd_text data)]> (results b) in
      let total_usage' :=
        match pd_usage data with
        | Some u => add_usage (total_usage b) u
        | None => total_usage b
        end in
      let completed_count' := S (completed_count b) in
      progress cb
        (85 + (inject_Z (Z.of_nat completed_count') / inject_Z (Z.of_nat total_chunks)) * 14)%Q
        ("并发转写中... (" ++ str_of_nat completed_count' ++ "/"
         ++ str_of_nat total_chunks ++ ")") ;;;
      ret {| results := results'; total_usage := total_usage';
             completed_count := completed_count' |}
  | Some (inl e) =>
      raise (Exn Exception
        ("片段 " ++ str_of_nat (index + 1) ++ " 转写失败，流程终止。错误: " ++ str e))
  | None => ret b   (* not an index of a future: as_completed never yields it *)
  end.

Fixpoint collect (cb : bool) (total_chunks : nat) (futures : list (exn + PartData))
    (order : list nat) (b : Batch) : M Batch :=
  match order with
  | [] => ret b
  | index :: rest =>
      b' <- collect_one cb total_chunks futures b index ;;
      collect cb total_chunks futures rest b'
  end.

(** The [finally] block: best-effort removal of every segment file. *)
Fixpoint cleanup (chunks : list path) : M unit :=
  match chunks with
  | [] => ret tt
  | chunk_path :: rest =>
      ex <- os_path_exists chunk_path ;;
      (if ex then try_except (os_remove chunk_path) (fun _ => ret tt) else ret tt) ;;;
      cleanup rest
  end.

Definition empty_batch (total_chunks : nat) : Batch :=
  {| results := replicate total_chunks None;
     total_usage := {| sum_prompt := 0; sum_completion := 0; sum_total := 0 |};
     completed_count := 0 |}.

(** Lines 304-314 of [_transcribe_chunked]: the segmentation. *)
Definition segment_audio (audio_path : path) (cb : bool) : M (list path) :=
  emit (EvChunked audio_path) ;;;
  AudioProcessor.init w ;;;
  let chunk_duration := 298%Z in
  progress cb 84 ("正在进行智能切片 (每段 " ++ str_of_Z chunk_duration ++ "s)...") ;;;
  AudioProcessor.split_audio w audio_path chunk_duration.

(** Lines 325-360: the body of the [try], under the executor. *)
Definition run_batch (chunks : list path) (model_name : string)
    (language : option string) (cb : bool) : M Batch :=
  let total_chunks := length chunks in
  futures <- submit_all 0 total_chunks chunks model_name language ;;
  order <- ask (fun tr => as_completed w tr total_chunks) ;;
  collect cb total_chunks futures order (empty_batch total_chunks).

Definition _transcribe_chunked (audio_path : path) (model_name : string)
    (language : option string) (cb : bool) : M Result :=
  chunks <- segment_audio audio_path cb ;;
  b <- try_finally (run_batch chunks model_name language cb) (cleanup chunks) ;;
  combined_text <- join (nl ++ nl) (results b) ;;
  progress cb 99 "所有片段转写成功，已合并" ;;;
  ret {| r_text := combined_text;
         r_language := language;
         r_duration := None;
         r_segments := Some [];
         r_usage := Some (UsageDict (total_usage b)) |}.

End Methods.

Section Orchestrator.
Variable w : World.

(** Lines 108-124 of [transcribe]: the strategy choice.  Returns
    [should_chunk] with the measured [duration]. *)
Definition choose_strategy (audio_path : path) : M (bool * Q) :=
  try_except
    (AudioProcessor.init w ;;;
     duration <- AudioProcessor.get_audio_duration w audio_path ;;
     if Qgt_bool duration 298
     then (_ <- os_getsize w audio_path ;; ret (true, duration))   (* read by the print *)
     else ret (false, duration))
    (fun _ => ret (false, 0%Q)).

Definition response_fmt (self : Transcriber) : string :=
  if String.prefix "gpt-4o" (model_name self) then "json" else "verbose_json".

(** Lines 132-153: what the single-shot [try] does before the upload; the
    value is the [audio_path] to upload. *)
Definition prepare_upload (self : Transcriber) (audio_path : path) (cb : bool) : M path :=
  progress cb 85 ("正在上传至 OpenAI API 转写 (模型: " ++ model_name self ++ ")...") ;;;
  size <- os_getsize w audio_path ;;
  let file_size_mb := (inject_Z size / inject_Z (1024 * 1024))%Q in
  if Qgt_bool file_size_mb 24 then
    progress cb 83 ("音频文件过大 (" ++ fmt_1f file_size_mb ++ "MB)，正在压缩...") ;;;
    AudioProcessor.init w ;;;
    try_except (AudioProcessor.compress_for_api w audio_path cb)
               (fun _ => ret audio_path)
  else ret audio_path.

(** The keyword arguments of the two single-shot calls. *)
Definition primary_request (self : Transcriber) (audio_path : path)
    (language : option string) : Request :=
  {| req_model := model_name self; req_file := audio_path;
     req_language := language; req_response_format := response_fmt self |}.

Definition fallback_request (audio_path : path) (language : option string) : Request :=
  {| req_model := "whisper-1"; req_file := audio_path;
     req_language := language; req_response_format := "verbose_json" |}.

(** The dict built from a [verbose_json] or [json] transcript. *)
Definition result_of (transcript : Response) (usage : option usage_value) : Result :=
  {| r_text := resp_text transcript;
     r_language := Some (default "auto" (resp_language transcript));
     r_duration := Some (default 0%Q (resp_duration transcript));
     r_segments := None;
     r_usage := usage |}.

(** Lines 155-180: the upload and the result dict. *)
Definition upload (self : Transcriber) (audio_path : path) (language : option string)
    (cb : bool) : M Result :=
  open_rb audio_path ;;;
  transcript <- create w (primary_request self audio_path language) ;;
  progress cb 99 "API 转写完成" ;;;
  ret (result_of transcript (UsageObj <$> resp_usage transcript)).

(** The payload-too-large test of the [except] clause. *)
Definition too_large (error_str : string) : bool :=
  str_in "input_too_large" error_str || str_in "maximum context" error_str.

(** Lines 182-211: the [except Exception as e] clause of the single-shot
    [try]; [audio_path] is the variable's value when [e] was raised. *)
Definition on_error (self : Transcriber) (audio_path : path) (language : option string)
    (cb : bool) (e : exn) : M Result :=
  let error_str := str e in
  if too_large error_str then
    _transcribe_chunked w audio_path (model_name self) language cb
  else if negb (String.eqb (model_name self) "whisper-1") then
    try_except
      (open_rb audio_path ;;;
       transcript <- create w (fallback_request audio_path language) ;;
       ret (result_of transcript None))
      (fun e2 => raise (Exn Exception ("OpenAI API 转写失败 (回退也失败): " ++ str e2)))
  else raise (Exn Exception ("OpenAI API 转写失败: " ++ str e)).

(** Lines 131-211.  [audio_path] is rebound only when the compression
    returns, so an exception raised before that reaches the handler with the
    original path, and one raised by the upload with the uploaded path. *)
Definition single_shot (self : Transcriber) (audio_path : path)
    (language : option string) (cb : bool) : M Result :=
  fun st =>
    match prepare_upload self audio_path cb st with
    | (inl e, st1) => on_error self audio_path language cb e st1
    | (inr audio_path', st1) =>
        match upload self audio_path' language cb st1 with
        | (inl e, st2) => on_error self audio_path' language cb e st2
        | (inr result, st2) => (inr result, st2)
        end
    end.

Definition model_transcribe (audio_path : path) (language : option string)
    (fp16 : bool) : M Result :=
  emit (EvLocal audio_path fp16) ;;;
  o <- ask (fun tr => whisper_transcribe w tr audio_path language fp16) ;;
  match o with
  | inl e => raise e
  | inr result => ret result
  end.

(** Lines 214-245: the local Whisper path. *)
Definition transcribe_local (audio_path : path) (language : option string)
    (cb : bool) : M Result :=
  let fp16 := true in
  try_except
    (result <- model_transcribe audio_path language fp16 ;;
     progress cb 99 "转写完成" ;;;
     ret result)
    (fun e =>
       match class_of e with
       | RuntimeError =>
           if str_in "NaN" (str e) && fp16
           then model_transcribe audio_path language false
           else raise e
       | _ => raise (Exn Exception ("语音转写失败: " ++ str e))
       end).

Definition transcribe (self : Transcriber) (audio_path : path)
    (language : option string) (cb : bool) : M Result :=
  ex <- os_path_exists audio_path ;;
  if negb ex then raise (Exn FileNotFoundError ("音频文件不存在: " ++ audio_path))
  else
    load_model w self cb ;;;
    progress cb 82 "开始语音转写..." ;;;
    if _is_api_model self then
      sd <- choose_strategy audio_path ;;
      let '(should_chunk, duration) := sd in
      if should_chunk then
        progress cb 83 ("正在进行分段转写 (总长 " ++ fmt_1f duration ++ "s)...") ;;;
        _transcribe_chunked w audio_path (model_name self) language cb
      else single_shot self audio_path language cb
    else transcribe_local audio_path language cb.

End Orchestrator.

(** ** Reading a trace *)

Definition percentages (tr : list Event) : list Q :=
  omap (fun ev => match ev with EvProgress pct _ => Some pct | _ => None end) tr.

Definition requests (tr : list Event) : list Request :=
  omap (fun ev => match ev with EvCreate r => Some r | _ => None end) tr.

Definition compressions (tr : list Event) : list path :=
  omap (fun ev => match ev with EvCompress src => Some src | _ => None end) tr.

Definition dispatches (tr : list Event) : list path :=
  omap (fun ev => match ev with EvChunked src => Some src | _ => None end) tr.

(** A sequence of percentages that never goes down. *)
Fixpoint nondecreasing (l : list Q) : Prop :=
  match l with
  | [] => True
  | x :: rest =>
      match rest with
      | [] => True
      | y :: _ => (x <= y)%Q /\ nondecreasing rest
      end
  end.

(** The state of a remote job when the strategy is chosen: the client is
    set and the first progress update is out. *)
Definition started (cb : bool) (st : State) : State :=
  {| files := files st;
     trace := if cb then trace st ++ [EvProgress 82 "开始语音转写..."] else trace st;
     client := true;
     model := model st |}.

(** ** What one segment contributes to the usage totals *)

Definition part_prompt (d : PartData) : Z :=
  match pd_usage d with Some u => p_tokens u | None => 0%Z end.

Definition part_completion (d : PartData) : Z :=
  match pd_usage d with Some u => c_tokens u | None => 0%Z end.

Definition part_total (d : PartData) : Z :=
  match pd_usage d with Some u => getattr (total_tokens u) 0 | None => 0%Z end.

Definition sumZ (l : list Z) : Z := foldr Z.add 0%Z l.

(** What one iteration of the loop does to the batch when the future at
    [index] holds [data]. *)
Definition filled (b : Batch) (index : nat) (data : PartData) : Batch :=
  {| results := <[index := Some (pd_text data)]> (results b);
     total_usage := match pd_usage data with
                    | Some u => add_usage (total_usage b) u
                    | None => total_usage b
                    end;
     completed_count := S (completed_count b) |}.

Definition filled_at (datas : list PartData) (b : Batch) (index : nat) : Batch :=
  match datas !! index with
  | Some data => filled b index data
  | None => b
  end.

Definition part_prompt_at (datas : list PartData) (i : nat) : Z :=
  from_option part_prompt 0%Z (datas !! i).
Definition part_completion_at (datas : list PartData) (i : nat) : Z :=
  from_option part_completion 0%Z (datas !! i).
Definition part_total_at (datas : list PartData) (i : nat) : Z :=
  from_option part_total 0%Z (datas !! i).

(** A remote job, with its key and its file, for which the strategy choice
    says not to chunk: a single-shot job. *)
Definition single_shot_job (w : World) (self : Transcriber) (audio_path : path)
    (cb : bool) (st : State) : Prop :=
  _is_api_model self = true ∧ truthy (api_key self) = true
  ∧ audio_path ∈ files st
  ∧ ∃ duration, fst (choose_strategy w audio_path (started cb st)) = inr (false, duration).

(** A computation that does not call the compression. *)
Definition no_compression {A} (c : M A) : Prop :=
  ∀ st, compressions (trace (snd (c st))) = compressions (trace st).

(** ** Scenarios

    Concrete hosts and services, on which the functions above are run. *)

Definition transcript_of (r : Request) (usage : option Usage) : Response :=
  {| resp_text := "text of " ++ req_file r; resp_language := None;
     resp_duration := None; resp_usage := usage |}.

(** A host whose answers do not change during the job: ffmpeg present or
    not, one duration, one file size, the outcome of the compressing run, a
    service, the segment files whose removal raises.  The audio is cut in two
    segments, and the second future completes first. *)
Definition scenario (ffmpeg : bool) (duration : Q) (size : Z)
    (compress_error : option string) (service : Request → exn + Response)
    (remove_fails : path → bool) : World :=
  {| ffmpeg_version_ok := fun _ => ffmpeg;
     ffprobe_duration := fun _ _ => Some duration;
     getsize := fun _ _ => size;
     ffmpeg_compress := fun _ _ _ _ => compress_error;
     ffmpeg_segment := fun _ _ _ => inr ["talk_part000.mp3"; "talk_part001.mp3"];
     remote_create := fun _ r => service r;
     os_remove_fails := fun _ p => remove_fails p;
     whisper_load := fun _ _ => None;
     whisper_transcribe := fun _ _ _ _ => inl (Exn RuntimeError "no local model");
     as_completed := fun _ n => rev (seq 0 n) |}.

Definition accept_all (r : Request) : exn + Response := inr (transcript_of r None).

(** Rejects the whole file as too large and accepts the segments. *)
Definition reject_whole_file (r : Request) : exn + Response :=
  if String.eqb (req_file r) "talk.wav"
  then inl (Exn APIError "Error code: 400 - input_too_large")
  else inr (transcript_of r None).

(** Rejects every request, with a reason of its own for each model. *)
Definition reject_all (r : Request) : exn + Response :=
  if String.eqb (req_model r) "whisper-1"
  then inl (Exn APIError "Error code: 503 - server down")
  else inl (Exn APIError "Error code: 429 - quota exceeded").

(** Accepts every request and reports token counts without a total. *)
Definition report_usage (r : Request) : exn + Response :=
  if String.eqb (req_file r) "talk_part000.mp3"
  then inr (transcript_of r (Some {| prompt_tokens := Some 10%Z; input_tokens := None;
                                     completion_tokens := Some 5%Z; output_tokens := None;
                                     total_tokens := None |}))
  else inr (transcript_of r (Some {| prompt_tokens := Some 7%Z; input_tokens := None;
                                     completion_tokens := Some 3%Z; output_tokens := None;
                                     total_tokens := None |})).


Definition never (p : path) : bool := false.

Definition MB : Z := (1024 * 1024)%Z.

(** The job starts with the audio file on disk and nothing logged. *)
Definition fresh : State :=
  {| files := {["talk.wav"]}; trace := []; client := false; model := false |}.

Definition gpt4o : Transcriber := __init__ "gpt-4o-transcribe" (Some "sk-test") None.
Definition whisper1 : Transcriber := __init__ "whisper-1" (Some "sk-test") None.

(** A file above the limit that compresses well, on a service that accepts. *)
Definition host_compressing : World :=
  scenario true 100 (30 * MB) None accept_all never.


(** A short, small file that the service rejects as too large. *)
Definition host_recovering : World :=
  scenario true 100 (1 * MB) None reject_whole_file never.

(** A short, small file on a service that rejects every request. *)
Definition host_rejecting : World :=
  scenario true 100 (1 * MB) None reject_all never.

(** A ten-minute file whose two segments report their token counts. *)
Definition host_reporting : World :=
  scenario true 600 (1 * MB) None report_usage never.


(** A ten-minute file on a machine without ffmpeg. *)
Definition host_without_ffmpeg : World :=
  scenario false 600 (1 * MB) None accept_all never.

(** A small file of the given duration. *)
Definition host_of_duration (duration : Q) : World :=
  scenario true duration (1 * MB) None accept_all never.

Definition two_segments : list path := ["talk_part000.mp3"; "talk_part001.mp3"].

(** ** The rest of [core/transcriber.py] *)

(** [unload_model]: the handle is dropped; the collection of garbage and of
    the accelerator cache are the host's. *)
Definition unload_model : M unit :=
  loaded <- get_model ;;
  if loaded then set_model false else ret tt.

(** A computation whose events are not among those that [read] selects. *)
Definition keeps {A B} (read : Event → option B) (c : M A) : Prop :=
  ∀ st, omap read (trace (snd (c st))) = omap read (trace st).



(** ** The rest of [core/audio_processor.py] *)

(** [s.replace(old, new)] for a non-empty [old]: the occurrences are taken
    from the left and do not overlap; [skip] counts the characters of the
    occurrence under way. *)
Fixpoint replace_go (old new : string) (skip : nat) (s : string) : string :=
  match s with
  | EmptyString => EmptyString
  | String c rest =>
      match skip with
      | S k => replace_go old new k rest
      | O =>
          if String.prefix old s
          then new ++ replace_go old new (String.length old - 1) rest
          else String c (replace_go old new 0 rest)
      end
  end.

Definition replace (s old new : string) : string := replace_go old new 0 s.

Module AudioProcessorMore.
Section Methods.
Variable w : World.
(* the run [ffmpeg -y -i src -ar 16000 -ac 1 -acodec pcm_s16le out]:
   [Some message] when it fails *)
Variable ffmpeg_to_wav : list Event -> path -> path -> option string.

(** Lines 92-98 of [process_audio]: the bitrate of the intermediate mp3, or
    [None].  The quotient is the exact one, as in [bitrate_kbps]: on floats
    [int] of it can differ only when the exact quotient is within the
    rounding error of an integer. *)
Definition target_bitrate (duration : Q) : option Z :=
  if Qgt_bool duration 0 then
    let target_size_bits := (20 * 1024 * 1024 * 8)%Z in
    let needed_bitrate := py_int (inject_Z target_size_bits / duration / 1000)%Q in
    if (needed_bitrate <? 128)%Z then Some (Z.max needed_bitrate 32) else None
  else None.

(** One [subprocess.run(cmd, capture_output=True, check=True)] that creates
    [out] when it succeeds.  A failure carries the text that the handlers of
    [process_audio] put in their message: stderr when there is one, else
    [str(e)]. *)
Definition run_ffmpeg (outcome : list Event -> option string) (out : path) : M unit :=
  r <- ask outcome ;;
  match r with
  | Some error_msg => raise (Exn Exception error_msg)
  | None => set_files (fun fs => {[out]} ∪ fs)
  end.

Definition process_audio (input_path : path) (output_path : option path) (cb : bool)
  : M path :=
  progress cb 55 "加载音频文件..." ;;;
  ex <- os_path_exists input_path ;;
  if negb ex then raise (Exn FileNotFoundError ("音频文件不存在: " ++ input_path))
  else
    let output_path :=
      if truthy output_path then default "" output_path
      else fst (splitext input_path) ++ "_processed.wav" in
    progress cb 60 "转换音频格式..." ;;;
    try_except
      (duration <- AudioProcessor._get_audio_duration w input_path ;;
       let target_bitrate := target_bitrate duration in
       progress cb 65 "优化音频大小..." ;;;
       (match target_bitrate with
        | Some kbps =>
            if negb (Z.eqb kbps 0) && (kbps <? 128)%Z then
              let temp_mp3 := replace output_path ".wav" "_temp.mp3" in
              progress cb 68 ("压缩音频 (目标: " ++ str_of_Z kbps ++ "kbps)...") ;;;
              run_ffmpeg (fun tr => ffmpeg_compress w tr input_path kbps temp_mp3)
                temp_mp3 ;;;
              run_ffmpeg (fun tr => ffmpeg_to_wav tr temp_mp3 output_path) output_path ;;;
              ex <- os_path_exists temp_mp3 ;;
              if ex then os_remove w temp_mp3 else ret tt
            else
              run_ffmpeg (fun tr => ffmpeg_to_wav tr input_path output_path) output_path
        | None =>
            run_ffmpeg (fun tr => ffmpeg_to_wav tr input_path output_path) output_path
        end) ;;;
       progress cb 75 "音频处理完成" ;;;
       ret output_path)
      (fun e => raise (Exn Exception ("音频处理失败: " ++ str e))).

End Methods.
End AudioProcessorMore.

(** ** [Transcriber._format_time]

    Seconds are exact rationals here; on floats [//] and [%] give the same
    values for the non-negative durations that Whisper reports. *)

(** [a // b] and [a % b] on floats, for [b > 0]. *)
Definition floordiv (a b : Q) : Q := inject_Z (Qfloor (a / b)).
Definition py_mod (a b : Q) : Q := (a - b * inject_Z (Qfloor (a / b)))%Q.

(** [f"{n:02d}"] *)
Definition fmt_02d (n : Z) : string :=
  let s := str_of_Z n in
  if (String.length s <? 2)%nat then "0" ++ s else s.

Definition _format_time (seconds : Q) : string :=
  let minutes := py_int (floordiv seconds 60) in
  let secs := py_int (py_mod seconds 60) in
  fmt_02d minutes ++ ":" ++ fmt_02d secs.

(** ** [utils/helpers.py]: [safe_filename]

    [len] and slicing count code points, so a [str] is a list of code points
    here. *)
Section SafeFilename.
(* [str.isspace] of a single character *)
Variable isspace : N -> bool.

(* the code points of the class of [illegal_chars]: less-than, greater-than,
   colon, double quote, slash, backslash, bar, question mark, asterisk *)
Definition illegal_chars : list N := [60; 62; 58; 34; 47; 92; 124; 63; 42]%N.

Definition illegal (c : N) : bool := bool_decide (c ∈ illegal_chars).

(** [re.sub(illegal_chars, '_', name)] *)
Definition sub_illegal (name : list N) : list N :=
  (fun c => if illegal c then 95%N else c) <$> name.

Fixpoint lstrip (s : list N) : list N :=
  match s with
  | c :: rest => if isspace c then lstrip rest else s
  | [] => []
  end.

(** No whitespace at the head. *)
Definition clean (s : list N) : Prop :=
  match s with c :: _ => isspace c = false | [] => True end.

(** [s.strip()] *)
Definition strip (s : list N) : list N := rev (lstrip (rev (lstrip s))).

(** [s[:n]] *)
Definition slice_to (s : list N) (n : Z) : list N :=
  if (0 <=? n)%Z then take (Z.to_nat n) s
  else take (Z.to_nat (Z.of_nat (length s) + n)) s.

Definition safe_filename (name : list N) (max_length : Z) : list N :=
  let safe_name := sub_illegal name in
  let safe_name :=
    if (max_length <? Z.of_nat (length safe_name))%Z then slice_to safe_name max_length
    else safe_name in
  strip safe_name.

End SafeFilename.

(** ** [ui/main_window.py]: the audio steps of [ProcessThread.run] *)
Section AudioSteps.
Variable w : World.
Variable ffmpeg_to_wav : list Event -> path -> path -> option string.

(** A new [Transcriber] has neither a client nor a model. *)
Definition new_transcriber (model_name_or_path : string) (api_key : option string)
  : M Transcriber :=
  fun st => (inr (__init__ model_name_or_path api_key None),
             {| files := files st; trace := trace st; client := false; model := false |}).

(** Lines 96-121 of [run], steps 2 and 3, without what they print; the
    callback of both steps is [self.progress.emit]. *)
Definition run_audio_steps (model_to_use : string) (api_key : option string)
    (video_path : path) : M Result :=
  AudioProcessor.init w ;;;
  processed_audio <- AudioProcessorMore.process_audio w ffmpeg_to_wav video_path None true ;;
  audio_size <- os_getsize w processed_audio ;;
  transcriber <- new_transcriber model_to_use api_key ;;
  transcribe w transcriber processed_audio None true.

End AudioSteps.

(** ** Scenarios for the local path, the conversion and the helpers *)

(** A machine that runs Whisper itself.  The recording lasts 2000 seconds,
    and the segmentation of a file yields no segment. *)
Definition host_local : World :=
  {| ffmpeg_version_ok := fun _ => true;
     ffprobe_duration := fun _ _ => Some 2000%Q;
     getsize := fun _ _ => (1 * MB)%Z;
     ffmpeg_compress := fun _ _ _ _ => None;
     ffmpeg_segment := fun _ _ _ => inr [];
     remote_create := fun _ r => inr (transcript_of r None);
     os_remove_fails := fun _ _ => false;
     whisper_load := fun _ _ => None;
     whisper_transcribe := fun _ p _ _ =>
       inr {| r_text := "text of " ++ p; r_language := Some "zh"; r_duration := None;
              r_segments := Some []; r_usage := None |};
     as_completed := fun _ n => seq 0 n |}.

Definition base_model : Transcriber := __init__ "base" None None.

(** The conversion to wav succeeds, or fails on its input. *)
Definition wav_ok (tr : list Event) (src out : path) : option string := None.

(** A file above the upload limit on a machine without ffmpeg. *)
Definition host_oversize_without_ffmpeg : World :=
  scenario false 100 (30 * MB) None accept_all never.


(** Only the space is whitespace. *)
Definition space_only (c : N) : bool := N.eqb c 32.

(** * Properties *)

(** ** The collecting loop *)

Lemma sumZ_cons (x : Z) (l : list Z) : sumZ (x :: l) = (x + sumZ l)%Z.
Proof. reflexivity. Qed.

Lemma sumZ_Permutation (l1 l2 : list Z) : l1 ≡ₚ l2 → sumZ l1 = sumZ l2.
Proof.
  induction 1 as [| x l l' _ IH | x y l | l l' l'' _ IH1 _ IH2]; simpl; lia.
Qed.

Section Collect.
Variables (cb : bool) (total_chunks : nat).

(** When every future holds a result, the loop ends normally, whatever the
    order, and its batch is the fold of [filled_at]. *)
Lemma collect_all_results (datas : list PartData) order : ∀ b st,
  ∃ st', collect cb total_chunks (inr <$> datas) order b st
         = (inr (foldl (filled_at datas) b order), st').
Proof.
  induction order as [| index rest IH]; intros b st; [by eexists |].
  simpl. unfold bind, collect_one, filled_at at 2.
  rewrite list_lookup_fmap.
  destruct (datas !! index) as [data |]; simpl.
  - destruct cb; simpl; apply IH.
  - apply IH.
Qed.


End Collect.

(** ** The slots and the totals after a whole batch *)

Section Slots.
Variable datas : list PartData.

Lemma filled_at_length b index :
  length (results (filled_at datas b index)) = length (results b).
Proof.
  unfold filled_at. destruct (datas !! index); [| done].
  simpl. by rewrite length_insert.
Qed.

Lemma foldl_filled_length order : ∀ b,
  length (results (foldl (filled_at datas) b order)) = length (results b).
Proof.
  induction order as [| index rest IH]; intros b; [done |].
  simpl. rewrite IH. apply filled_at_length.
Qed.

Lemma foldl_filled_other order i : ∀ b,
  i ∉ order →
  results (foldl (filled_at datas) b order) !! i = results b !! i.
Proof.
  induction order as [| index rest IH]; intros b Hni; [done |].
  apply not_elem_of_cons in Hni as [Hne Hni].
  simpl. rewrite IH by done.
  unfold filled_at. destruct (datas !! index); [| done].
  simpl. by rewrite list_lookup_insert_ne.
Qed.

Lemma foldl_filled_slot order i data : ∀ b,
  i ∈ order → datas !! i = Some data → i < length (results b) →
  results (foldl (filled_at datas) b order) !! i = Some (Some (pd_text data)).
Proof.
  induction order as [| index rest IH]; intros b Hin Hd Hlt.
  - by apply elem_of_nil in Hin.
  - simpl. destruct (decide (i ∈ rest)) as [Hrest | Hrest].
    + apply IH; [done | done |]. by rewrite filled_at_length.
    + apply elem_of_cons in Hin as [-> | ?]; [| done].
      rewrite foldl_filled_other by done.
      unfold filled_at. rewrite Hd. simpl.
      by rewrite list_lookup_insert_eq.
Qed.

(** Every slot is written, at its own index, once the order has gone through
    all the indices. *)
Lemma foldl_filled_all order b :
  order ≡ₚ seq 0 (length datas) →
  length (results b) = length datas →
  results (foldl (filled_at datas) b order) = (Some ∘ pd_text) <$> datas.
Proof.
  intros Hperm Hlen. apply list_eq. intros i.
  rewrite list_lookup_fmap.
  destruct (datas !! i) as [data |] eqn:Hd; simpl.
  - apply foldl_filled_slot; [| done |].
    + rewrite Hperm. apply elem_of_seq. apply lookup_lt_Some in Hd. lia.
    + rewrite Hlen. by eapply lookup_lt_Some.
  - apply lookup_ge_None. rewrite foldl_filled_length, Hlen.
    by apply lookup_ge_None.
Qed.

Lemma foldl_filled_usage order : ∀ b,
  total_usage (foldl (filled_at datas) b order) =
  {| sum_prompt := sum_prompt (total_usage b) + sumZ (part_prompt_at datas <$> order);
     sum_completion := sum_completion (total_usage b) + sumZ (part_completion_at datas <$> order);
     sum_total := sum_total (total_usage b) + sumZ (part_total_at datas <$> order) |}.
Proof.
  induction order as [| index rest IH]; intros b.
  - simpl. destruct (total_usage b). simpl. f_equal; lia.
  - rewrite !fmap_cons. cbn [foldl]. rewrite IH, !sumZ_cons.
    generalize (sumZ (part_prompt_at datas <$> rest))
               (sumZ (part_completion_at datas <$> rest))
               (sumZ (part_total_at datas <$> rest)).
    intros sp sc stot.
    unfold filled_at, part_prompt_at, part_completion_at, part_total_at.
    destruct (datas !! index) as [data |]; simpl.
    + unfold part_prompt, part_completion, part_total.
      destruct (pd_usage data); simpl; f_equal; lia.
    + f_equal; lia.
Qed.

Lemma sum_at_indices (f : PartData → Z) :
  sumZ ((λ i, from_option f 0%Z (datas !! i)) <$> seq 0 (length datas))
  = sumZ (f <$> datas).
Proof.
  f_equal. apply list_eq. intros i.
  rewrite !list_lookup_fmap.
  destruct (datas !! i) as [data |] eqn:Hd; simpl.
  - rewrite lookup_seq_lt by (by eapply lookup_lt_Some). simpl. by rewrite Hd.
  - rewrite lookup_seq_ge; [done |]. by apply lookup_ge_None.
Qed.

Lemma foldl_filled_totals order b :
  order ≡ₚ seq 0 (length datas) →
  total_usage (foldl (filled_at datas) b order) =
  {| sum_prompt := sum_prompt (total_usage b) + sumZ (part_prompt <$> datas);
     sum_completion := sum_completion (total_usage b) + sumZ (part_completion <$> datas);
     sum_total := sum_total (total_usage b) + sumZ (part_total <$> datas) |}.
Proof.
  intros Hperm. rewrite foldl_filled_usage.
  rewrite <- !sum_at_indices.
  f_equal; f_equal; apply sumZ_Permutation; by apply fmap_Permutation.
Qed.

End Slots.

Lemma all_texts_Some (texts : list string) : all_texts (Some <$> texts) = Some texts.
Proof.
  induction texts as [| s rest IH]; [done |].
  rewrite fmap_cons. cbn [all_texts]. by rewrite IH.
Qed.

(** ** The futures and the cleanup *)

Section Batch.
Variable w : World.

Lemma _transcribe_part_files i total_chunks chunk_path model_name language st :
  files (snd (_transcribe_part w i total_chunks chunk_path model_name language st))
  = files st.
Proof.
  unfold _transcribe_part, try_except, bind, open_rb, os_path_exists, create,
    bind, emit, ask, raise, ret.
  destruct (bool_decide (chunk_path ∈ files st)); simpl; [| done].
  by destruct (remote_create w _ _).
Qed.

(** Every submitted future runs to its end: there is one outcome per segment,
    and no file is touched. *)
Lemma submit_all_total total_chunks model_name language chunks : ∀ i st,
  ∃ futures st',
    submit_all w i total_chunks chunks model_name language st = (inr futures, st')
    ∧ length futures = length chunks ∧ files st' = files st.
Proof.
  induction chunks as [| chunk_path rest IH]; intros i st.
  - by exists [], st.
  - simpl. unfold bind at 1, future.
    pose proof (_transcribe_part_files i total_chunks chunk_path model_name language st)
      as Hfiles.
    destruct (_transcribe_part w i total_chunks chunk_path model_name language st)
      as [f st1].
    destruct (IH (S i) st1) as (fs & st2 & Hrest & Hlen & Hfiles2).
    exists (f :: fs), st2. unfold bind. rewrite Hrest. simpl in *.
    split; [done |]. split; [by rewrite Hlen | congruence].
Qed.

(** The [finally] block never raises, creates no file, and leaves a segment
    file behind only when its removal raised. *)
Lemma cleanup_removes chunks : ∀ st,
  ∃ st', cleanup w chunks st = (inr tt, st')
    ∧ files st' ⊆ files st
    ∧ ∀ c, c ∈ chunks → c ∉ files st' ∨ ∃ tr, os_remove_fails w tr c = true.
Proof.
  induction chunks as [| chunk_path rest IH]; intros st.
  - exists st. split; [done |]. split; [done |]. intros c Hc.
    by apply elem_of_nil in Hc.
  - simpl. unfold bind at 1, os_path_exists.
    destruct (bool_decide (chunk_path ∈ files st)) eqn:Hex.
    + unfold bind at 1, try_except, os_remove, bind, emit, ask.
      destruct (os_remove_fails w (trace (log st (EvRemove chunk_path))) chunk_path)
        eqn:Hfail; simpl.
      * destruct (IH (log st (EvRemove chunk_path))) as (st' & Hrun & Hincl & Hgone).
        exists st'. split; [done |]. split; [done |].
        intros c Hc. apply elem_of_cons in Hc as [-> | Hc]; [| by apply Hgone].
        right. eauto.
      * destruct (IH {| files := files st ∖ {[chunk_path]};
                        trace := trace st ++ [EvRemove chunk_path];
                        client := client st; model := model st |})
          as (st' & Hrun & Hincl & Hgone).
        exists st'. split; [done |]. simpl in Hincl. split.
        { intros x Hx. apply Hincl in Hx. by apply elem_of_difference in Hx as [? _]. }
        intros c Hc. apply elem_of_cons in Hc as [-> | Hc]; [| by apply Hgone].
        left. intros Hx. apply Hincl in Hx. apply elem_of_difference in Hx as [_ Hx].
        apply Hx. by apply elem_of_singleton.
    + unfold bind at 1, ret.
      destruct (IH st) as (st' & Hrun & Hincl & Hgone).
      exists st'. split; [done |]. split; [done |].
      intros c Hc. apply elem_of_cons in Hc as [-> | Hc]; [| by apply Hgone].
      left. apply bool_decide_eq_false in Hex. intros Hx. apply Hex. by apply Hincl.
Qed.

(** The function after the segmentation and the submission: the loop, the
    cleanup, then the assembly. *)
Lemma chunked_unfold audio_path model_name language cb st chunks s0 futures s1 :
  segment_audio w audio_path cb st = (inr chunks, s0) →
  submit_all w 0 (length chunks) chunks model_name language s0 = (inr futures, s1) →
  ∃ s3,
    cleanup w chunks
      (snd (collect cb (length chunks) futures
              (as_completed w (trace s1) (length chunks))
              (empty_batch (length chunks)) s1)) = (inr tt, s3)
    ∧ _transcribe_chunked w audio_path model_name language cb st =
      match fst (collect cb (length chunks) futures
                   (as_completed w (trace s1) (length chunks))
                   (empty_batch (length chunks)) s1) with
      | inl e => (inl e, s3)
      | inr b =>
          (combined_text <- join (nl ++ nl) (results b) ;;
           progress cb 99 "所有片段转写成功，已合并" ;;;
           ret {| r_text := combined_text; r_language := language;
                  r_duration := None; r_segments := Some [];
                  r_usage := Some (UsageDict (total_usage b)) |}) s3
      end.
Proof.
  intros Hseg Hsub.
  unfold _transcribe_chunked. unfold bind at 1. rewrite Hseg.
  unfold bind at 1, try_finally, run_batch. unfold bind at 1. rewrite Hsub.
  unfold bind at 1, ask.
  destruct (collect cb (length chunks) futures _ _ s1) as [r s2]; simpl.
  destruct (cleanup_removes chunks s2) as (s3 & Hclean & _ & _).
  exists s3. split; [done |]. rewrite Hclean.
  by destruct r.
Qed.

End Batch.

(** ** The Chunk Dispatcher *)

Section Dispatcher.
Variable w : World.

(** What a future holds comes from the service: a result carries the text and
    the usage of the response to the segment's request; an exception is the
    one the request raised, unless the segment file could not be opened. *)
Lemma future_outcome total_chunks model_name language chunks : ∀ i st futures st' k c,
  submit_all w i total_chunks chunks model_name language st = (inr futures, st') →
  chunks !! k = Some c →
  let request := {| req_model := model_name; req_file := c;
                    req_language := language; req_response_format := "json" |} in
  match futures !! k with
  | Some (inr data) =>
      ∃ tr response, remote_create w tr request = inr response
        ∧ data = {| pd_index := i + k; pd_text := resp_text response;
                    pd_usage := resp_usage response |}
  | Some (inl e) => c ∉ files st ∨ ∃ tr, remote_create w tr request = inl e
  | None => False
  end.
Proof.
  induction chunks as [| chunk_path rest IH]; intros i st futures st' k c Hsub Hk;
    [done |].
  simpl in Hsub. unfold bind at 1, future in Hsub.
  pose proof (_transcribe_part_files w i total_chunks chunk_path model_name language st)
    as Hfiles.
  destruct (_transcribe_part w i total_chunks chunk_path model_name language st)
    as [f st1] eqn:Hpart.
  unfold bind at 1 in Hsub.
  destruct (submit_all w (S i) total_chunks rest model_name language st1)
    as [[e | fs] st2] eqn:Hrest; [done |].
  injection Hsub as <- <-.
  destruct k as [| k]; simpl in Hk |- *.
  - injection Hk as ->.
    unfold _transcribe_part, try_except, bind, open_rb, os_path_exists, create,
      bind, emit, ask, raise, ret in Hpart.
    destruct (bool_decide (c ∈ files st)) eqn:Hex; simpl in Hpart.
    + set (request := {| req_model := model_name; req_file := c;
                         req_language := language;
                         req_response_format := "json" |}) in *.
      destruct (remote_create w (trace st ++ [EvCreate request]) request)
        as [e | response] eqn:Hcreate; injection Hpart as <- <-.
      * right. eauto.
      * exists (trace st ++ [EvCreate request])%list, response.
        split; [done |]. by rewrite Nat.add_0_r.
    + injection Hpart as <- <-. left. by apply bool_decide_eq_false in Hex.
  - specialize (IH (S i) st1 fs st2 k c Hrest Hk). simpl in IH, Hfiles.
    destruct (fs !! k) as [[e | data] |]; [| | done].
    + by rewrite <- Hfiles.
    + destruct IH as (tr & response & ? & ->).
      exists tr, response. split; [done |]. f_equal. lia.
Qed.


(** A batch whose futures all hold a result: the whole returned dict. *)
Lemma chunked_success audio_path model_name language cb st chunks s0 datas s1 :
  segment_audio w audio_path cb st = (inr chunks, s0) →
  submit_all w 0 (length chunks) chunks model_name language s0
    = (inr (inr <$> datas), s1) →
  as_completed w (trace s1) (length chunks) ≡ₚ seq 0 (length chunks) →
  ∃ st',
    _transcribe_chunked w audio_path model_name language cb st =
    (inr {| r_text := String.concat (nl ++ nl) (pd_text <$> datas);
            r_language := language;
            r_duration := None;
            r_segments := Some [];
            r_usage := Some (UsageDict
              {| sum_prompt := sumZ (part_prompt <$> datas);
                 sum_completion := sumZ (part_completion <$> datas);
                 sum_total := sumZ (part_total <$> datas) |}) |}, st').
Proof.
  intros Hseg Hsub Hperm.
  assert (length datas = length chunks) as Hlen.
  { destruct (submit_all_total w (length chunks) model_name language chunks 0 s0)
      as (fs & s1' & Hrun & Hl & _).
    rewrite Hsub in Hrun. injection Hrun as <- <-. by rewrite length_fmap in Hl. }
  destruct (chunked_unfold w _ _ _ cb _ _ _ _ _ Hseg Hsub) as (s3 & _ & ->).
  destruct (collect_all_results cb (length chunks) datas
              (as_completed w (trace s1) (length chunks))
              (empty_batch (length chunks)) s1) as (s2 & ->).
  rewrite <- Hlen in Hperm |- *. simpl.
  unfold bind at 1, join.
  rewrite (foldl_filled_all datas _ _ Hperm)
    by (unfold empty_batch; simpl; by rewrite length_replicate).
  rewrite list_fmap_compose, all_texts_Some.
  rewrite (foldl_filled_totals datas _ _ Hperm).
  unfold ret at 1, bind. destruct cb; simpl; eexists; reflexivity.
Qed.

(** C2: whatever the order in which the futures complete (any permutation
    [order] of the indices), a batch whose segments all succeed returns the
    segments' texts joined in index order by two line breaks, with the
    language the caller asked for and an empty list of segments. *)
Theorem order_invariance audio_path model_name language cb st chunks s0 datas s1 order :
  segment_audio w audio_path cb st = (inr chunks, s0) →
  submit_all w 0 (length chunks) chunks model_name language s0
    = (inr (inr <$> datas), s1) →
  as_completed w (trace s1) (length chunks) = order →
  order ≡ₚ seq 0 (length chunks) →
  ∃ result st',
    _transcribe_chunked w audio_path model_name language cb st = (inr result, st')
    ∧ r_text result = String.concat (nl ++ nl) (pd_text <$> datas)
    ∧ r_language result = language
    ∧ r_segments result = Some [].
Proof.
  intros Hseg Hsub <- Hperm.
  destruct (chunked_success _ _ _ cb _ _ _ _ _ Hseg Hsub Hperm) as (st' & Hrun).
  eexists _, st'. split; [exact Hrun |]. done.
Qed.



End Dispatcher.

(** ** The Orchestrator: the stages of a remote job *)

Section Remote.
Variable w : World.

Lemma load_model_remote self cb st :
  _is_api_model self = true → truthy (api_key self) = true →
  load_model w self cb st
  = (inr tt, {| files := files st; trace := trace st; client := true;
                model := model st |}).
Proof. intros Hapi Hkey. unfold load_model. by rewrite Hapi, Hkey. Qed.

(** A remote job whose file exists reaches the strategy choice in the state
    [started cb st]. *)
Lemma transcribe_remote self audio_path language cb st :
  _is_api_model self = true → truthy (api_key self) = true →
  audio_path ∈ files st →
  transcribe w self audio_path language cb st =
  (sd <- choose_strategy w audio_path ;;
   let '(should_chunk, duration) := sd in
   if should_chunk then
     progress cb 83 ("正在进行分段转写 (总长 " ++ fmt_1f duration ++ "s)...") ;;;
     _transcribe_chunked w audio_path (model_name self) language cb
   else single_shot w self audio_path language cb) (started cb st).
Proof.
  intros Hapi Hkey Hex.
  unfold transcribe. unfold bind at 1, os_path_exists.
  rewrite bool_decide_eq_true_2 by done. cbn [negb].
  unfold bind at 1. rewrite load_model_remote by done.
  unfold bind at 1. rewrite Hapi.
  by destruct cb.
Qed.

(** The strategy choice never raises and leaves the state as it is. *)
Lemma choose_strategy_cases audio_path st :
  choose_strategy w audio_path st =
  (inr (if ffmpeg_version_ok w (trace st)
        then let duration := default 0%Q (ffprobe_duration w (trace st) audio_path) in
             if Qgt_bool duration 298 && bool_decide (audio_path ∈ files st)
             then (true, duration)
             else if Qgt_bool duration 298 then (false, 0%Q) else (false, duration)
        else (false, 0%Q)), st).
Proof.
  unfold choose_strategy, try_except, bind, AudioProcessor.init, bind, ask,
    AudioProcessor.get_audio_duration, AudioProcessor._get_audio_duration, bind, ask,
    os_getsize, bind, os_path_exists, default.
  destruct (ffmpeg_version_ok w (trace st)); [| done]. cbn [ret].
  destruct (ffprobe_duration w (trace st) audio_path) as [d |];
    destruct (Qgt_bool _ 298); cbn [andb ret]; try done;
    by destruct (bool_decide (audio_path ∈ files st)).
Qed.

End Remote.

Lemma requests_log st ev :
  requests (trace (log st ev)) =
  (requests (trace st) ++ match ev with EvCreate r => [r] | _ => [] end)%list.
Proof. unfold requests, log. cbn [trace]. rewrite omap_app. by destruct ev. Qed.

Lemma dispatches_log st ev :
  dispatches (trace (log st ev)) =
  (dispatches (trace st) ++ match ev with EvChunked src => [src] | _ => [] end)%list.
Proof. unfold dispatches, log. cbn [trace]. rewrite omap_app. by destruct ev. Qed.

Lemma started_reads cb st :
  files (started cb st) = files st
  ∧ requests (trace (started cb st)) = requests (trace st)
  ∧ dispatches (trace (started cb st)) = dispatches (trace st)
  ∧ compressions (trace (started cb st)) = compressions (trace st).
Proof.
  unfold started, requests, dispatches, compressions.
  destruct cb; cbn [files trace]; rewrite ?omap_app; cbn [omap list_omap];
    by rewrite ?app_nil_r.
Qed.

(** Closes the three readings of a trace that grew by known events. *)
Ltac read_trace :=
  unfold requests, dispatches, compressions;
  rewrite ?omap_app; cbn [omap list_omap]; by rewrite ?app_nil_r.

Section Stages.
Variable w : World.

(** What [prepare_upload] can do: it issues no request and enters no chunked
    mode; the path it returns exists; an exception it lets through is not
    classified as too large. *)
Lemma prepare_upload_spec self audio_path cb st r s1 :
  audio_path ∈ files st →
  prepare_upload w self audio_path cb st = (r, s1) →
  dispatches (trace s1) = dispatches (trace st)
  ∧ requests (trace s1) = requests (trace st)
  ∧ audio_path ∈ files s1
  ∧ match r with
    | inr p' => p' ∈ files s1
    | inl e => too_large (str e) = false
    end.
Proof.
  intros Hex.
  unfold prepare_upload, os_getsize, AudioProcessor.compress_for_api,
    AudioProcessor.init, AudioProcessor._get_audio_duration, try_except, progress.
  unfold bind, os_path_exists, emit, ask, ret, raise, set_files.
  intros Hrun.
  destruct cb; cbn [files trace log] in Hrun;
    rewrite !(bool_decide_eq_true_2 _ Hex) in Hrun; cbn [negb] in Hrun;
    repeat (case_match; simplify_eq); cbn [files trace log];
    (split_and!;
       [ read_trace | read_trace
       | first [ done | by apply elem_of_union_r ]
       | first [ done | by apply elem_of_union_l, elem_of_singleton
               | vm_compute; reflexivity ] ]).
Qed.


(** The upload of an existing file: one request, then the result dict or the
    exception of the service. *)
Lemma upload_run self audio_path language cb st :
  audio_path ∈ files st →
  let request := primary_request self audio_path language in
  upload w self audio_path language cb st =
  match remote_create w (trace (log st (EvCreate request))) request with
  | inl e => (inl e, log st (EvCreate request))
  | inr transcript =>
      (inr (result_of transcript (UsageObj <$> resp_usage transcript)),
       if cb then log (log st (EvCreate request)) (EvProgress 99 "API 转写完成")
       else log st (EvCreate request))
  end.
Proof.
  intros Hex request.
  unfold upload, open_rb, create, progress, bind, os_path_exists, emit, ask, ret, raise.
  rewrite bool_decide_eq_true_2 by done. fold request.
  destruct (remote_create w (trace (log st (EvCreate request))) request); [done |].
  by destruct cb.
Qed.

Lemma on_error_too_large self audio_path language cb e st :
  too_large (str e) = true →
  on_error w self audio_path language cb e st
  = _transcribe_chunked w audio_path (model_name self) language cb st.
Proof. intros Hlarge. unfold on_error. by rewrite Hlarge. Qed.

Lemma on_error_fallback self audio_path language cb e st :
  too_large (str e) = false → model_name self ≠ "whisper-1" →
  audio_path ∈ files st →
  let fallback := fallback_request audio_path language in
  on_error w self audio_path language cb e st =
  match remote_create w (trace (log st (EvCreate fallback))) fallback with
  | inr transcript => (inr (result_of transcript None), log st (EvCreate fallback))
  | inl e2 =>
      (inl (Exn Exception ("OpenAI API 转写失败 (回退也失败): " ++ str e2)),
       log st (EvCreate fallback))
  end.
Proof.
  intros Hlarge Hmodel Hex fallback.
  unfold on_error. rewrite Hlarge.
  apply String.eqb_neq in Hmodel. rewrite Hmodel. cbn [negb].
  unfold try_except, open_rb, create, bind, os_path_exists, emit, ask, ret, raise.
  rewrite bool_decide_eq_true_2 by done. fold fallback.
  by destruct (remote_create w (trace (log st (EvCreate fallback))) fallback).
Qed.

Lemma on_error_baseline self audio_path language cb e st :
  too_large (str e) = false → model_name self = "whisper-1" →
  on_error w self audio_path language cb e st
  = (inl (Exn Exception ("OpenAI API 转写失败: " ++ str e)), st).
Proof.
  intros Hlarge Hmodel. unfold on_error. rewrite Hlarge, Hmodel. reflexivity.
Qed.

(** A single-shot job is [single_shot] run in the started state. *)
Lemma single_shot_job_run self audio_path language cb st :
  single_shot_job w self audio_path cb st →
  transcribe w self audio_path language cb st
  = single_shot w self audio_path language cb (started cb st).
Proof.
  intros (Hapi & Hkey & Hex & d & Hchoice).
  rewrite transcribe_remote by done. unfold bind.
  pose proof (choose_strategy_cases w audio_path (started cb st)) as Hcases.
  destruct (choose_strategy w audio_path (started cb st)) as [r s].
  cbn [fst] in Hchoice. subst r.
  assert (s = started cb st) as -> by congruence. reflexivity.
Qed.

(** The job once the service has rejected the upload with [e]: the [except]
    clause runs with the uploaded path. *)
Lemma single_shot_rejected self audio_path language cb st p' s1 e :
  single_shot_job w self audio_path cb st →
  prepare_upload w self audio_path cb (started cb st) = (inr p', s1) →
  let request := primary_request self p' language in
  remote_create w (trace (log s1 (EvCreate request))) request = inl e →
  p' ∈ files (log s1 (EvCreate request))
  ∧ requests (trace (log s1 (EvCreate request))) = (requests (trace st) ++ [request])%list
  ∧ transcribe w self audio_path language cb st
    = on_error w self p' language cb e (log s1 (EvCreate request)).
Proof.
  intros Hjob Hprep request Hrej.
  pose proof Hjob as (_ & _ & Hex & _).
  destruct (started_reads cb st) as (Hfiles & Hreq & _ & _).
  destruct (prepare_upload_spec self audio_path cb (started cb st) _ _
              ltac:(by rewrite Hfiles) Hprep) as (_ & Hreq1 & _ & Hex').
  split; [done |]. split.
  - rewrite requests_log, Hreq1, Hreq. reflexivity.
  - rewrite single_shot_job_run by done.
    unfold single_shot. rewrite Hprep, upload_run by done.
    fold request. by rewrite Hrej.
Qed.

End Stages.

(** ** The Orchestrator: strategy and fallback *)

Section Orchestration.
Variable w : World.

(** Without a too-large rejection, the single-shot path never enters the
    chunked mode. *)
Lemma single_shot_no_dispatch self audio_path language cb st :
  audio_path ∈ files st →
  (∀ tr r e, remote_create w tr r = inl e → too_large (str e) = false) →
  dispatches (trace (snd (single_shot w self audio_path language cb st)))
  = dispatches (trace st).
Proof.
  intros Hex Hnever.
  assert (∀ p e s, too_large (str e) = false → p ∈ files s →
            dispatches (trace (snd (on_error w self p language cb e s)))
            = dispatches (trace s)) as Hhandler.
  { intros p e s Hlarge Hp.
    destruct (decide (model_name self = "whisper-1")) as [Hbase | Hother].
    - by rewrite on_error_baseline.
    - rewrite on_error_fallback by done.
      destruct (remote_create w _ _); cbn [snd];
        by rewrite dispatches_log, app_nil_r. }
  unfold single_shot.
  destruct (prepare_upload w self audio_path cb st) as [[e | p'] s1] eqn:Hprep;
    destruct (prepare_upload_spec w self audio_path cb st _ _ Hex Hprep)
      as (Hdisp & _ & Hex1 & Hr).
  - rewrite Hhandler by done. exact Hdisp.
  - rewrite upload_run by done.
    destruct (remote_create w _ _) as [e | transcript] eqn:Hcreate.
    + rewrite Hhandler; [| by eapply Hnever | done].
      by rewrite dispatches_log, app_nil_r.
    + cbn [snd]. destruct cb; by rewrite !dispatches_log, !app_nil_r.
Qed.

(** C3: at the threshold the choice is strict.  A remote job whose measured
    duration is exactly 298 seconds is run by the single-shot path; one whose
    duration is above 298 seconds is handed to the Chunk Dispatcher, whose
    outcome is the outcome of the job. *)
Theorem threshold_boundary self audio_path language cb st duration :
  _is_api_model self = true → truthy (api_key self) = true →
  audio_path ∈ files st →
  ffmpeg_version_ok w (trace (started cb st)) = true →
  ffprobe_duration w (trace (started cb st)) audio_path = Some duration →
  ((duration == 298)%Q →
     fst (choose_strategy w audio_path (started cb st)) = inr (false, duration)
     ∧ transcribe w self audio_path language cb st
       = single_shot w self audio_path language cb (started cb st))
  ∧ ((298 < duration)%Q →
     fst (choose_strategy w audio_path (started cb st)) = inr (true, duration)
     ∧ transcribe w self audio_path language cb st
       = (progress cb 83 ("正在进行分段转写 (总长 " ++ fmt_1f duration ++ "s)...") ;;;
          _transcribe_chunked w audio_path (model_name self) language cb)
           (started cb st)).
Proof.
  intros Hapi Hkey Hex Hffmpeg Hprobe.
  assert (audio_path ∈ files (started cb st)) as Hex' by done.
  rewrite transcribe_remote by done. unfold bind at 1 3.
  rewrite choose_strategy_cases, Hffmpeg, Hprobe.
  rewrite (bool_decide_eq_true_2 _ Hex'). cbv zeta. cbn [from_option id fst].
  rewrite andb_true_r.
  split; intros Hd.
  - assert (Qgt_bool duration 298 = false) as ->; [| done].
    unfold Qgt_bool. apply negb_false_iff, Qle_bool_iff. rewrite Hd. apply Qle_refl.
  - assert (Qgt_bool duration 298 = true) as ->; [| done].
    unfold Qgt_bool. apply negb_true_iff.
    destruct (Qle_bool duration 298) eqn:Hle; [| done].
    apply Qle_bool_iff in Hle. exfalso. eapply Qlt_not_le; eauto.
Qed.

(** C10: when the measurement of the duration fails, by an exception that
    the [try] swallows (ffmpeg is not there when [AudioProcessor()] checks
    it) or inside [_get_audio_duration], which then answers 0, the job goes
    on as a single-shot job, whatever the duration of the audio.  From there
    a too-large rejection of the upload hands the job to the Chunk
    Dispatcher, and without such a rejection the chunked mode is not entered. *)
Theorem measurement_failure_single_shot self audio_path language cb st :
  _is_api_model self = true → truthy (api_key self) = true →
  audio_path ∈ files st →
  ffmpeg_version_ok w (trace (started cb st)) = false
  ∨ ffprobe_duration w (trace (started cb st)) audio_path = None →
  choose_strategy w audio_path (started cb st) = (inr (false, 0%Q), started cb st)
  ∧ transcribe w self audio_path language cb st
    = single_shot w self audio_path language cb (started cb st)
  ∧ (∀ p' s1 e,
       prepare_upload w self audio_path cb (started cb st) = (inr p', s1) →
       remote_create w (trace (log s1 (EvCreate (primary_request self p' language))))
         (primary_request self p' language) = inl e →
       too_large (str e) = true →
       transcribe w self audio_path language cb st
       = _transcribe_chunked w p' (model_name self) language cb
           (log s1 (EvCreate (primary_request self p' language))))
  ∧ ((∀ tr r e, remote_create w tr r = inl e → too_large (str e) = false) →
     dispatches (trace (snd (transcribe w self audio_path language cb st)))
     = dispatches (trace st)).
Proof.
  intros Hapi Hkey Hex Hffmpeg.
  assert (choose_strategy w audio_path (started cb st)
          = (inr (false, 0%Q), started cb st)) as Hchoice.
  { rewrite choose_strategy_cases.
    destruct Hffmpeg as [-> | ->]; [done |].
    by destruct (ffmpeg_version_ok w _). }
  assert (single_shot_job w self audio_path cb st) as Hjob.
  { split_and!; try done. exists 0%Q. by rewrite Hchoice. }
  split; [done |]. split; [by apply single_shot_job_run |]. split.
  - intros p' s1 e Hprep Hrej Hlarge.
    destruct (single_shot_rejected w self audio_path language cb st p' s1 e
                Hjob Hprep Hrej) as (_ & _ & ->).
    by apply on_error_too_large.
  - intros Hnever. rewrite single_shot_job_run by done.
    rewrite single_shot_no_dispatch by done.
    by destruct (started_reads cb st) as (_ & _ & -> & _).
Qed.



(** C7, as amended: when the model of a single-shot job is already whisper-1
    and its upload is rejected with an error that is not classified as too
    large, no second request is made: the job raises, and the upload is the
    only request recorded. *)
Theorem baseline_no_retry self audio_path language cb st p' s1 e :
  single_shot_job w self audio_path cb st →
  model_name self = "whisper-1" →
  prepare_upload w self audio_path cb (started cb st) = (inr p', s1) →
  let primary := primary_request self p' language in
  let s2 := log s1 (EvCreate primary) in
  remote_create w (trace s2) primary = inl e →
  too_large (str e) = false →
  transcribe w self audio_path language cb st
  = (inl (Exn Exception ("OpenAI API 转写失败: " ++ str e)), s2)
  ∧ requests (trace s2) = (requests (trace st) ++ [primary])%list.
Proof.
  intros Hjob Hmodel Hprep primary s2 Hrej Hlarge.
  destruct (single_shot_rejected w self audio_path language cb st p' s1 e
              Hjob Hprep Hrej) as (Hex & Hreq & ->).
  split; [by apply on_error_baseline | done].
Qed.

End Orchestration.

(** ** The compressed path *)

Lemma string_of_list_ascii_app (l1 l2 : list ascii) :
  string_of_list_ascii (l1 ++ l2) = string_of_list_ascii l1 ++ string_of_list_ascii l2.
Proof. induction l1 as [| c l1 IH]; [done |]. simpl. by rewrite IH. Qed.

Lemma append_empty_r (s : string) : s ++ "" = s.
Proof.
  induction s as [| c s IH]; [done |].
  change (String c (s ++ "") = String c s). by rewrite IH.
Qed.

Lemma split_last_dot_spec rev_p : ∀ ext rest e,
  split_last_dot rev_p ext = Some (rest, e) →
  (rev rest ++ e = rev rev_p ++ ext)%list ∧ ∃ e', e = "."%char :: e'.
Proof.
  induction rev_p as [| c l IH]; intros ext rest e Hsplit; [done |].
  simpl in Hsplit.
  destruct (Ascii.eqb c "/"); [done |].
  destruct (Ascii.eqb c ".") eqn:Hdot.
  - injection Hsplit as <- <-. apply Ascii.eqb_eq in Hdot as ->.
    split; [| by eexists]. simpl. by rewrite <- app_assoc.
  - apply IH in Hsplit as [Heq Hext]. split; [| done].
    rewrite Heq. simpl. by rewrite <- app_assoc.
Qed.

(** The two parts of [splitext] make the path again, and the extension is
    empty or starts with a dot. *)
Lemma splitext_spec (p : string) :
  fst (splitext p) ++ snd (splitext p) = p
  ∧ (snd (splitext p) = "" ∨ ∃ s, snd (splitext p) = String "." s).
Proof.
  unfold splitext.
  destruct (split_last_dot (rev (list_ascii_of_string p)) []) as [[rev_root ext] |]
    eqn:Hsplit; [| split; [apply append_empty_r | by left]].
  destruct (has_name rev_root); [| split; [apply append_empty_r | by left]].
  apply split_last_dot_spec in Hsplit as [Heq [e' ->]]. cbn [fst snd].
  split; [| right; by eexists].
  rewrite <- string_of_list_ascii_app, Heq, app_nil_r, rev_involutive.
  apply string_of_list_ascii_of_string.
Qed.

Lemma append_inv_head (s a b : string) : s ++ a = s ++ b → a = b.
Proof. induction s as [| c s IH]; [done |]. simpl. intros [= H]. by apply IH. Qed.


Lemma Qgt_bool_true (a b : Q) : (b < a)%Q → Qgt_bool a b = true.
Proof.
  intros Hlt. unfold Qgt_bool. apply negb_true_iff.
  destruct (Qle_bool a b) eqn:Hle; [| done].
  apply Qle_bool_iff in Hle. exfalso. eapply Qlt_not_le; eauto.
Qed.

(** ** Where the compression is called *)

Section NoCompression.

Lemma nc_ret {A} (a : A) : no_compression (ret a).
Proof. by intros st. Qed.

Lemma nc_raise {A} (e : exn) : no_compression (@raise A e).
Proof. by intros st. Qed.

Lemma nc_bind {A B} (c : M A) (k : A → M B) :
  no_compression c → (∀ a, no_compression (k a)) → no_compression (bind c k).
Proof.
  intros Hc Hk st. unfold bind. specialize (Hc st).
  destruct (c st) as [[e | a] st1]; [done |].
  rewrite Hk. exact Hc.
Qed.

Lemma nc_try_finally {A} (body : M A) (cleanup : M unit) :
  no_compression body → no_compression cleanup →
  no_compression (try_finally body cleanup).
Proof.
  intros Hb Hc st. unfold try_finally. specialize (Hb st).
  destruct (body st) as [r st1]. specialize (Hc st1).
  destruct (cleanup st1) as [[e | []] st2]; cbn [snd] in *; congruence.
Qed.

Lemma nc_future {A} (c : M A) : no_compression c → no_compression (future c).
Proof. intros Hc st. unfold future. specialize (Hc st). by destruct (c st). Qed.

Lemma nc_ask {A} (f : list Event → A) : no_compression (ask f).
Proof. by intros st. Qed.

Lemma nc_os_path_exists (p : path) : no_compression (os_path_exists p).
Proof. by intros st. Qed.

End NoCompression.

(** Runs a computation without loops on any state and compares the
    compressions of the two traces. *)
Ltac straight_line :=
  intros ?st;
  unfold progress;
  unfold bind, try_except, emit, ask, ret, raise, os_path_exists, set_files;
  repeat (case_match; simplify_eq); cbn [snd trace log files];
  unfold compressions; rewrite ?omap_app; cbn [omap list_omap]; by rewrite ?app_nil_r.

Section CompressionOnce.
Variable w : World.

Lemma nc_transcribe_part i total_chunks chunk_path model_name language :
  no_compression (_transcribe_part w i total_chunks chunk_path model_name language).
Proof. unfold _transcribe_part, open_rb, create. straight_line. Qed.

Lemma nc_submit_all total_chunks model_name language chunks : ∀ i,
  no_compression (submit_all w i total_chunks chunks model_name language).
Proof.
  induction chunks as [| chunk_path rest IH]; intros i; cbn [submit_all].
  - apply nc_ret.
  - apply nc_bind; [| intros f; apply nc_bind; [apply IH | intros; apply nc_ret]].
    apply nc_future, nc_transcribe_part.
Qed.

Lemma nc_collect cb total_chunks futures order : ∀ b,
  no_compression (collect cb total_chunks futures order b).
Proof.
  induction order as [| index rest IH]; intros b; cbn [collect].
  - apply nc_ret.
  - apply nc_bind; [| intros; apply IH].
    unfold collect_one. straight_line.
Qed.

Lemma nc_cleanup chunks : no_compression (cleanup w chunks).
Proof.
  induction chunks as [| chunk_path rest IH]; cbn [cleanup].
  - apply nc_ret.
  - apply nc_bind; [apply nc_os_path_exists | intros ex].
    apply nc_bind; [| intros; apply IH].
    unfold os_remove. straight_line.
Qed.

Lemma nc_segment_audio audio_path cb :
  no_compression (segment_audio w audio_path cb).
Proof.
  unfold segment_audio, AudioProcessor.init, AudioProcessor.split_audio.
  straight_line.
Qed.

Lemma nc_chunked audio_path model_name language cb :
  no_compression (_transcribe_chunked w audio_path model_name language cb).
Proof.
  unfold _transcribe_chunked.
  apply nc_bind; [apply nc_segment_audio | intros chunks].
  apply nc_bind.
  - apply nc_try_finally; [| apply nc_cleanup].
    unfold run_batch.
    apply nc_bind; [apply nc_submit_all | intros futures].
    apply nc_bind; [apply nc_ask | intros order]. apply nc_collect.
  - intros b. unfold join. straight_line.
Qed.


Lemma nc_on_error self audio_path language cb e :
  no_compression (on_error w self audio_path language cb e).
Proof.
  unfold on_error.
  destruct (too_large (str e)); [apply nc_chunked |].
  destruct (negb _); [| apply nc_raise].
  unfold open_rb, create. straight_line.
Qed.



End CompressionOnce.

(** * The properties on the scenarios *)

Ltac run := vm_compute; reflexivity.
Ltac in_files := refine (bool_decide_unpack _ _); vm_compute; exact I.

Example splitext_wav : splitext "/tmp/a.b/audio.wav" = ("/tmp/a.b/audio", ".wav").
Proof. reflexivity. Qed.

Example splitext_hidden : splitext "/tmp/a.b/.hidden" = ("/tmp/a.b/.hidden", "").
Proof. reflexivity. Qed.

Example fmt_1f_threshold : fmt_1f (2981 # 10) = "298.1".
Proof. reflexivity. Qed.

Example fmt_1f_size : fmt_1f (inject_Z (30 * MB) / inject_Z (1024 * 1024)) = "30.0".
Proof. reflexivity. Qed.

Example fmt_1f_half_even : fmt_1f (1 # 4) = "0.2" ∧ fmt_1f (3 # 4) = "0.8".
Proof. split; reflexivity. Qed.

Example bitrate_short : AudioProcessor.bitrate_kbps 24 100 = 64%Z.
Proof. reflexivity. Qed.

Example bitrate_five_hours : AudioProcessor.bitrate_kbps 24 18000 = 12%Z.
Proof. reflexivity. Qed.

(** C9: the progress of a job is not always non-decreasing.  With a file
    above the upload limit the callback receives 85, then 83, then 62; on the
    recovery after a too-large rejection it receives 85, then 84. *)
Theorem progress_regresses :
  percentages (trace (snd (transcribe host_compressing gpt4o "talk.wav" None true fresh)))
    = [82; 85; 83; 62; 99]%Q
  ∧ ¬ nondecreasing [82; 85; 83; 62; 99]%Q
  ∧ percentages (trace (snd (transcribe host_recovering gpt4o "talk.wav" None true fresh)))
    = [82; 85; 84; 184 # 2; 198 # 2; 99]%Q
  ∧ ¬ nondecreasing [82; 85; 84; 184 # 2; 198 # 2; 99]%Q.
Proof.
  split; [run |]. split.
  { intros (_ & Hdown & _). vm_compute in Hdown. by apply Hdown. }
  split; [run |].
  intros (_ & Hdown & _). vm_compute in Hdown. by apply Hdown.
Qed.

(** On the other paths the percentages do not go down: a job chunked for
    its duration, and a single-shot job without compression. *)
Example progress_chunked_by_duration :
  percentages (trace (snd (transcribe host_reporting gpt4o "talk.wav" None true fresh)))
    = [82; 83; 84; 184 # 2; 198 # 2; 99]%Q
  ∧ nondecreasing [82; 83; 84; 184 # 2; 198 # 2; 99]%Q.
Proof. split; [run |]. cbn [nondecreasing]. unfold Qle. simpl. lia. Qed.

Example progress_single_shot :
  percentages (trace (snd (transcribe (host_of_duration 100) gpt4o "talk.wav" None true
                             fresh))) = [82; 85; 99]%Q
  ∧ nondecreasing [82; 85; 99]%Q.
Proof. split; [run |]. cbn [nondecreasing]. unfold Qle. simpl. lia. Qed.




(** C7, the claim as written fails: the model is whisper-1 and its single
    call is rejected, as too large; the job then transcribes the two segments
    and succeeds, with three requests recorded. *)
Lemma baseline_too_large_recovers :
  model_name whisper1 = "whisper-1"
  ∧ reject_whole_file (primary_request whisper1 "talk.wav" None)
    = inl (Exn APIError "Error code: 400 - input_too_large")
  ∧ fst (transcribe host_recovering whisper1 "talk.wav" None false fresh)
    = inr {| r_text := "text of talk_part000.mp3" ++ nl ++ nl ++ "text of talk_part001.mp3";
             r_language := None;
             r_duration := None;
             r_segments := Some [];
             r_usage := Some (UsageDict {| sum_prompt := 0; sum_completion := 0;
                                           sum_total := 0 |}) |}
  ∧ length (requests (trace (snd (transcribe host_recovering whisper1 "talk.wav" None
                                    false fresh)))) = 3.
Proof. split; [run |]. split; [run |]. split; run. Qed.


(** ** The theorems applied to the scenarios *)

Lemma order_invariance_witness :
  ∃ result st',
    _transcribe_chunked host_reporting "talk.wav" "gpt-4o-transcribe" (Some "zh") true fresh
      = (inr result, st')
    ∧ r_text result = "text of talk_part000.mp3" ++ nl ++ nl ++ "text of talk_part001.mp3"
    ∧ r_language result = Some "zh"
    ∧ r_segments result = Some [].
Proof.
  pose (s0 := snd (segment_audio host_reporting "talk.wav" true fresh)).
  pose (s1 := snd (submit_all host_reporting 0 2 two_segments "gpt-4o-transcribe"
                     (Some "zh") s0)).
  pose (datas :=
    [ {| pd_index := 0; pd_text := "text of talk_part000.mp3";
         pd_usage := Some {| prompt_tokens := Some 10%Z; input_tokens := None;
                             completion_tokens := Some 5%Z; output_tokens := None;
                             total_tokens := None |} |};
      {| pd_index := 1; pd_text := "text of talk_part001.mp3";
         pd_usage := Some {| prompt_tokens := Some 7%Z; input_tokens := None;
                             completion_tokens := Some 3%Z; output_tokens := None;
                             total_tokens := None |} |} ]).
  apply (order_invariance host_reporting "talk.wav" "gpt-4o-transcribe" (Some "zh") true
           fresh two_segments s0 datas s1 [1; 0]).
  - run.
  - run.
  - run.
  - apply perm_swap.
Defined.



Lemma threshold_boundary_witness :
  transcribe (host_of_duration 298) gpt4o "talk.wav" None true fresh
    = single_shot (host_of_duration 298) gpt4o "talk.wav" None true (started true fresh)
  ∧ transcribe (host_of_duration (2981 # 10)) gpt4o "talk.wav" None true fresh
    = (progress true 83 ("正在进行分段转写 (总长 "
                         ++ fmt_1f (2981 # 10) ++ "s)...") ;;;
       _transcribe_chunked (host_of_duration (2981 # 10)) "talk.wav" (model_name gpt4o)
         None true) (started true fresh).
Proof.
  split.
  - destruct (threshold_boundary (host_of_duration 298) gpt4o "talk.wav" None true fresh
                298) as [Hat _]; [run | run | in_files | run | run |].
    apply Hat. reflexivity.
  - destruct (threshold_boundary (host_of_duration (2981 # 10)) gpt4o "talk.wav" None true
                fresh (2981 # 10)) as [_ Habove]; [run | run | in_files | run | run |].
    apply Habove. reflexivity.
Defined.

Lemma single_shot_job_short (service : Request → exn + Response) (self : Transcriber) :
  _is_api_model self = true → truthy (api_key self) = true →
  single_shot_job (scenario true 100 (1 * MB) None service never) self "talk.wav" false fresh.
Proof.
  intros Hapi Hkey. split; [done |]. split; [done |]. split; [in_files |].
  exists 100%Q. run.
Defined.


Lemma baseline_no_retry_witness :
  fst (transcribe host_rejecting whisper1 "talk.wav" None false fresh)
    = inl (Exn Exception "OpenAI API 转写失败: Error code: 503 - server down")
  ∧ requests (trace (snd (transcribe host_rejecting whisper1 "talk.wav" None false fresh)))
    = [primary_request whisper1 "talk.wav" None].
Proof.
  pose (s1 := snd (prepare_upload host_rejecting whisper1 "talk.wav" false
                     (started false fresh))).
  destruct (baseline_no_retry host_rejecting whisper1 "talk.wav" None false fresh
              "talk.wav" s1 (Exn APIError "Error code: 503 - server down"))
    as [Hrun Hreq].
  - by apply single_shot_job_short.
  - reflexivity.
  - run.
  - run.
  - run.
  - rewrite Hrun. split; run.
Defined.


Lemma measurement_failure_single_shot_witness :
  choose_strategy host_without_ffmpeg "talk.wav" (started true fresh)
    = (inr (false, 0%Q), started true fresh)
  ∧ transcribe host_without_ffmpeg gpt4o "talk.wav" None true fresh
    = single_shot host_without_ffmpeg gpt4o "talk.wav" None true (started true fresh)
  ∧ dispatches (trace (snd (transcribe host_without_ffmpeg gpt4o "talk.wav" None true
                              fresh))) = [].
Proof.
  destruct (measurement_failure_single_shot host_without_ffmpeg gpt4o "talk.wav" None true
              fresh) as (Hchoice & Hrun & _ & Hnever);
    [run | run | in_files | left; run |].
  split; [exact Hchoice |]. split; [exact Hrun |].
  apply Hnever. intros tr r e Hrej. discriminate Hrej.
Defined.


(** * Further properties of [core/transcriber.py] *)

(** Runs straight-line monadic code on a state, by cases. *)
Ltac by_cases :=
  unfold progress;
  unfold bind, try_except, try_finally, emit, ask, ret, raise, os_path_exists,
    set_files, set_model, set_client, get_model;
  repeat (case_match; simplify_eq); cbn [fst snd trace log files model client].

Section LocalJob.
Variable w : World.

(** X1: a job with a local model stays on the machine: whatever happens, it
    sends no request, never enters the chunked mode and compresses nothing. *)
Theorem local_job_stays_local self audio_path language cb st :
  _is_api_model self = false →
  requests (trace (snd (transcribe w self audio_path language cb st))) = requests (trace st)
  ∧ dispatches (trace (snd (transcribe w self audio_path language cb st)))
    = dispatches (trace st)
  ∧ compressions (trace (snd (transcribe w self audio_path language cb st)))
    = compressions (trace st).
Proof.
  intros Hapi.
  unfold transcribe, load_model, transcribe_local, model_transcribe. rewrite Hapi.
  by_cases. all: split_and!; read_trace.
Qed.

End LocalJob.

Section LocalPolicy.
Variable w : World.

(** X2: the failure policy of the local path.  A RuntimeError that mentions
    NaN is answered by one more run, without fp16, whose outcome is returned
    as it is; another RuntimeError is raised again unchanged; any other
    exception is wrapped.  A result is returned as the model gave it. *)
Theorem local_failure_policy audio_path language cb st :
  let s1 := log st (EvLocal audio_path true) in
  let s2 := log s1 (EvLocal audio_path false) in
  match whisper_transcribe w (trace s1) audio_path language true with
  | inr result =>
      transcribe_local w audio_path language cb st
      = (inr result, if cb then log s1 (EvProgress 99 "转写完成") else s1)
  | inl e =>
      transcribe_local w audio_path language cb st =
      match class_of e with
      | RuntimeError =>
          if str_in "NaN" (str e)
          then (whisper_transcribe w (trace s2) audio_path language false, s2)
          else (inl e, s1)
      | _ => (inl (Exn Exception ("语音转写失败: " ++ str e)), s1)
      end
  end.
Proof.
  intros s1 s2. unfold transcribe_local, model_transcribe.
  unfold progress, bind, try_except, emit, ask, ret, raise. fold s1.
  destruct (whisper_transcribe w (trace s1) audio_path language true) as [e | result].
  - destruct e as [[] msg]; cbn [class_of str]; try reflexivity.
    destruct (str_in "NaN" msg); cbn [andb]; [| reflexivity].
    fold s2. by destruct (whisper_transcribe w (trace s2) audio_path language false).
  - by destruct cb.
Qed.

(** X3: the job checks the file, then the key, before anything else: a
    missing file and, for a remote model, a missing key end the job with the
    state as it was (no progress update, no model load, no request). *)
Theorem job_preconditions self audio_path language cb st :
  (audio_path ∉ files st →
   transcribe w self audio_path language cb st
   = (inl (Exn FileNotFoundError ("音频文件不存在: " ++ audio_path)), st))
  ∧ (audio_path ∈ files st → _is_api_model self = true →
     truthy (api_key self) = false →
     transcribe w self audio_path language cb st
     = (inl (Exn ValueError "使用在线转写模型需要提供 API Key"), st)).
Proof.
  split.
  - intros Hex. unfold transcribe, bind, os_path_exists.
    by rewrite bool_decide_eq_false_2.
  - intros Hex Hapi Hkey. unfold transcribe, bind, os_path_exists, load_model.
    rewrite bool_decide_eq_true_2 by done. by rewrite Hapi, Hkey.
Qed.

(** X4: the progress of a local job never goes down: what it adds to the
    percentages is 75, 80 (when the model has to be loaded), 82, 99, cut
    where the job fails. *)
Theorem local_progress_nondecreasing self audio_path language cb st :
  _is_api_model self = false →
  ∃ delta,
    percentages (trace (snd (transcribe w self audio_path language cb st)))
    = (percentages (trace st) ++ delta)%list
    ∧ nondecreasing delta.
Proof.
  intros Hapi.
  unfold transcribe, load_model, transcribe_local, model_transcribe. rewrite Hapi.
  by_cases.
  all: eexists; split;
    [ unfold percentages; rewrite ?omap_app; cbn [omap list_omap];
      rewrite <- ?app_assoc; cbn [app];
      first [reflexivity | symmetry; apply app_nil_r]
    | cbn [nondecreasing]; unfold Qle; simpl; lia ].
Qed.

(** X5: loading is lazy and idempotent, and unloading undoes it.  After a
    successful load of a local model a second load does nothing; unloading
    drops the handle and touches nothing else, twice as once; the next load
    asks [whisper.load_model] again and reports 75 and 80 again. *)
Theorem model_lifecycle self cb st st1 :
  _is_api_model self = false →
  load_model w self cb st = (inr tt, st1) →
  let unloaded := {| files := files st1; trace := trace st1; client := client st1;
                     model := false |} in
  let s75 := if cb then log unloaded (EvProgress 75 ("加载模型: " ++ model_name self ++ "..."))
             else unloaded in
  model st1 = true
  ∧ load_model w self cb st1 = (inr tt, st1)
  ∧ unload_model st1 = (inr tt, unloaded)
  ∧ unload_model unloaded = (inr tt, unloaded)
  ∧ load_model w self cb unloaded =
    match whisper_load w (trace s75) (model_name self) with
    | Some e => (inl (Exn Exception ("模型加载失败: " ++ str e)), s75)
    | None =>
        (inr tt,
         {| files := files st1;
            trace := if cb then trace s75 ++ [EvProgress 80 "模型加载完成"] else trace s75;
            client := client st1; model := true |})
    end.
Proof.
  intros Hapi Hload unloaded s75.
  assert (model st1 = true) as Hmodel.
  { revert Hload. unfold load_model. rewrite Hapi. by_cases.
    all: intros Heq; by simplify_eq. }
  split; [done |]. split.
  { unfold load_model, bind, get_model. by rewrite Hapi, Hmodel. }
  split.
  { unfold unload_model, bind, get_model, set_model. by rewrite Hmodel. }
  split; [done |].
  unfold load_model. rewrite Hapi.
  unfold progress, bind, try_except, get_model, emit, ask, ret, raise, set_model.
  cbn [model unloaded]. subst s75.
  destruct cb; cbn [fst snd]; destruct (whisper_load w _ _); reflexivity.
Qed.

End LocalPolicy.

(** ** What the stages of the dispatcher add to the trace *)

Section Keeps.
Context {B : Type} (read : Event → option B).



Lemma keeps_try_finally {A} (body : M A) (cleanup : M unit) :
  keeps read body → keeps read cleanup → keeps read (try_finally body cleanup).
Proof.
  intros Hb Hc st. unfold try_finally. specialize (Hb st).
  destruct (body st) as [r st1]. specialize (Hc st1).
  destruct (cleanup st1) as [[e | []] st2]; cbn [snd] in *; congruence.
Qed.


Variable w : World.




End Keeps.

Section DispatcherTrace.
Variable w : World.




End DispatcherTrace.

Section DispatcherProgress.
Variable w : World.

Lemma collect_no_futures cb total_chunks order : ∀ b st,
  collect cb total_chunks [] order b st = (inr b, st).
Proof. induction order as [| index rest IH]; intros b st; [done |]. cbn. apply IH. Qed.

(** X7: an audio that the segmentation cuts into no segment at all is not an
    error: the dispatcher makes no request and returns an empty text, with
    zero usage, as a success. *)
Theorem empty_segmentation audio_path model_name language cb st s0 :
  segment_audio w audio_path cb st = (inr [], s0) →
  _transcribe_chunked w audio_path model_name language cb st
  = (inr {| r_text := ""; r_language := language; r_duration := None;
            r_segments := Some [];
            r_usage := Some (UsageDict {| sum_prompt := 0; sum_completion := 0;
                                          sum_total := 0 |}) |},
     if cb then log s0 (EvProgress 99 "所有片段转写成功，已合并") else s0).
Proof.
  intros Hseg. unfold _transcribe_chunked. unfold bind at 1. rewrite Hseg.
  unfold bind at 1, try_finally, run_batch. cbn [length submit_all cleanup].
  unfold bind at 1, ret at 1. unfold bind at 1, ask.
  rewrite collect_no_futures. unfold ret at 1.
  by destruct cb.
Qed.







End DispatcherProgress.

Section SingleShotMore.
Variable w : World.

(** X9: a single-shot job whose upload is accepted makes that one request
    and nothing else: no fallback, no chunked mode.  The request asks for
    [verbose_json] exactly when the model is whisper-1, and the result takes
    the text and the usage of the response, with the language ["auto"] and
    the duration 0 when the response has none. *)
Theorem single_shot_success self audio_path language cb st p' s1 transcript :
  single_shot_job w self audio_path cb st →
  prepare_upload w self audio_path cb (started cb st) = (inr p', s1) →
  let request := primary_request self p' language in
  remote_create w (trace (log s1 (EvCreate request))) request = inr transcript →
  ∃ st',
    transcribe w self audio_path language cb st
    = (inr {| r_text := resp_text transcript;
              r_language := Some (default "auto" (resp_language transcript));
              r_duration := Some (default 0%Q (resp_duration transcript));
              r_segments := None;
              r_usage := UsageObj <$> resp_usage transcript |}, st')
    ∧ requests (trace st') = (requests (trace st) ++ [request])%list
    ∧ dispatches (trace st') = dispatches (trace st)
    ∧ (req_response_format request = "verbose_json" ↔ model_name self = "whisper-1")
    ∧ (req_response_format request = "json" ↔ model_name self ≠ "whisper-1").
Proof.
  intros Hjob Hprep request Hok.
  pose proof Hjob as (Hapi & _ & Hex & _).
  destruct (started_reads cb st) as (Hfiles & Hreq & Hdisp & _).
  destruct (prepare_upload_spec w self audio_path cb (started cb st) _ _
              ltac:(by rewrite Hfiles) Hprep) as (Hdisp1 & Hreq1 & _ & Hex').
  rewrite single_shot_job_run by done.
  unfold single_shot. rewrite Hprep, upload_run by done. fold request. rewrite Hok.
  eexists. split; [reflexivity |].
  split; [destruct cb; rewrite !requests_log, Hreq1, Hreq; cbn; by rewrite ?app_nil_r |].
  split; [destruct cb; rewrite !dispatches_log, Hdisp1, Hdisp; cbn; by rewrite ?app_nil_r |].
  unfold _is_api_model in Hapi. cbn [existsb] in Hapi.
  cbn [req_response_format request primary_request]. unfold response_fmt.
  destruct (String.eqb_spec (model_name self) "gpt-4o-transcribe") as [-> | _];
    [by split; split |].
  destruct (String.eqb_spec (model_name self) "gpt-4o-mini-transcribe") as [-> | _];
    [by split; split |].
  destruct (String.eqb_spec (model_name self) "whisper-1") as [-> | _]; [| done].
  split; split; done.
Qed.

(** X10: a file above the upload limit on a machine without ffmpeg is never
    compressed and never uploaded as the primary request: [AudioProcessor()]
    raises inside the single-shot [try].  With whisper-1 the job fails with
    that message and no request at all; with another model the only request
    is the whisper-1 fallback, for the original file. *)
Theorem oversize_without_ffmpeg self audio_path language cb st :
  _is_api_model self = true → truthy (api_key self) = true →
  audio_path ∈ files st →
  (∀ tr, ffmpeg_version_ok w tr = false) →
  (∀ tr, (24 < inject_Z (getsize w tr audio_path) / inject_Z (1024 * 1024))%Q) →
  ∃ e, (∀ s, AudioProcessor.init w s = (inl e, s))
    ∧ compressions (trace (snd (transcribe w self audio_path language cb st)))
      = compressions (trace st)
    ∧ (model_name self = "whisper-1" →
       fst (transcribe w self audio_path language cb st)
         = inl (Exn Exception ("OpenAI API 转写失败: " ++ str e))
       ∧ requests (trace (snd (transcribe w self audio_path language cb st)))
         = requests (trace st))
    ∧ (model_name self ≠ "whisper-1" →
       requests (trace (snd (transcribe w self audio_path language cb st)))
       = (requests (trace st) ++ [fallback_request audio_path language])%list).
Proof.
  intros Hapi Hkey Hex Hffmpeg Hsize.
  assert (single_shot_job w self audio_path cb st) as Hjob.
  { split_and!; try done. exists 0%Q. by rewrite choose_strategy_cases, Hffmpeg. }
  destruct (started_reads cb st) as (Hfiles & Hreq & _ & Hcomp).
  assert (∃ e s1, (∀ s, AudioProcessor.init w s = (inl e, s))
            ∧ too_large (str e) = false
            ∧ prepare_upload w self audio_path cb (started cb st) = (inl e, s1)
            ∧ files s1 = files st
            ∧ requests (trace s1) = requests (trace st)
            ∧ compressions (trace s1) = compressions (trace st))
    as (e & s1 & Hinit & Hlarge & Hprep & Hfiles1 & Hreq1 & Hcomp1).
  { destruct cb; eexists _, _.
    all: split;
      [ intros s; unfold AudioProcessor.init, bind, ask; rewrite Hffmpeg; reflexivity |].
    all: split; [vm_compute; reflexivity |].
    all: unfold prepare_upload, os_getsize, AudioProcessor.init, progress.
    all: unfold bind, os_path_exists, emit, ask, ret, raise.
    all: cbn [files trace log started];
      rewrite !(bool_decide_eq_true_2 _ Hex);
      rewrite (Qgt_bool_true _ _ (Hsize _)); cbn [files trace log];
      rewrite Hffmpeg; (split; [reflexivity |]); cbn [files trace log];
      split_and!; try done; read_trace. }
  exists e. split; [done |].
  rewrite single_shot_job_run by done. unfold single_shot. rewrite Hprep.
  split; [by rewrite nc_on_error |].
  split.
  - intros Hmodel. rewrite on_error_baseline by done. by split.
  - intros Hmodel. rewrite on_error_fallback by (try done; by rewrite Hfiles1).
    destruct (remote_create w _ _); cbn [snd]; by rewrite requests_log, Hreq1.
Qed.

End SingleShotMore.

Section SegmentationFailure.
Variable w : World.


End SegmentationFailure.

(** * Further properties of [core/audio_processor.py] *)




Section Bitrate.

(** The bitrate given to the compressing run is always between 12 and
    64 kbps, and is 32 kbps when the duration could not be measured. *)
Lemma bitrate_bounds (max_size_mb : Z) (duration : Q) :
  (12 <= AudioProcessor.bitrate_kbps max_size_mb duration <= 64)%Z
  ∧ ((duration <= 0)%Q → AudioProcessor.bitrate_kbps max_size_mb duration = 32%Z).
Proof.
  unfold AudioProcessor.bitrate_kbps. split.
  - destruct (Qle_bool duration 0); lia.
  - intros Hd. apply Qle_bool_iff in Hd. by rewrite Hd.
Qed.




End Bitrate.

Lemma length_append (s t : string) :
  String.length (s ++ t) = (String.length s + String.length t)%nat.
Proof.
  induction s as [| c s IH]; [done |].
  change (S (String.length (s ++ t)) = S (String.length s + String.length t)).
  by rewrite IH.
Qed.

Lemma prefix_append (old s : string) : String.prefix old (old ++ s) = true.
Proof.
  induction old as [| c old IH]; [by destruct s |].
  change (String c old ++ s) with (String c (old ++ s)). simpl.
  by destruct (ascii_dec c c).
Qed.

Section Replace.
Variables old new : string.
Hypothesis Hold : (0 < String.length old)%nat.
Hypothesis Hnew : (String.length old ≤ String.length new)%nat.

(** A replacement by a string that is not shorter never shortens. *)
Lemma replace_go_length (s : string) : ∀ skip,
  (String.length s ≤ String.length (replace_go old new skip s) + skip)%nat.
Proof.
  induction s as [| c s IH]; intros skip; [simpl; lia |].
  destruct skip as [| k]; cbn [replace_go].
  - destruct (String.prefix old (String c s)).
    + rewrite length_append. specialize (IH (String.length old - 1)%nat).
      cbn [String.length]. lia.
    + cbn [String.length]. specialize (IH 0%nat). lia.
  - specialize (IH k). cbn [String.length]. lia.
Qed.

Lemma replace_go_match (s : string) :
  (0 < String.length s)%nat → String.prefix old s = true →
  (String.length new ≤ String.length (replace_go old new 0 s))%nat.
Proof.
  destruct s as [| c s]; [cbn [String.length]; lia |]. intros _ Hp.
  cbn [replace_go]. rewrite Hp, length_append. lia.
Qed.

(** A string that ends with [old] grows by the difference of the lengths at
    least. *)
Lemma replace_go_suffix (r : string) : ∀ skip,
  (skip ≤ String.length r)%nat →
  (String.length (r ++ old) + (String.length new - String.length old)
   ≤ String.length (replace_go old new skip (r ++ old)) + skip)%nat.
Proof.
  induction r as [| c r IH]; intros skip Hskip.
  - cbn [String.length] in Hskip. assert (skip = 0%nat) as -> by lia.
    change ("" ++ old) with old.
    pose proof (prefix_append old "") as Hp. rewrite append_empty_r in Hp.
    pose proof (replace_go_match old Hold Hp). lia.
  - change (String c r ++ old) with (String c (r ++ old)).
    destruct skip as [| k]; cbn [replace_go].
    + destruct (String.prefix old (String c (r ++ old))).
      * rewrite length_append.
        pose proof (replace_go_length (r ++ old) (String.length old - 1)).
        cbn [String.length]. lia.
      * specialize (IH 0%nat). cbn [String.length] in *. lia.
    + specialize (IH k). cbn [String.length] in *. lia.
Qed.

End Replace.

(** The temporary mp3 of [process_audio] never has the path of the wav that
    is returned when that path ends in [.wav]. *)
Lemma temp_mp3_differs (base : string) :
  replace (base ++ ".wav") ".wav" "_temp.mp3" ≠ base ++ ".wav".
Proof.
  intros Heq. apply (f_equal String.length) in Heq.
  pose proof (replace_go_suffix ".wav" "_temp.mp3" ltac:(simpl; lia) ltac:(simpl; lia)
                base 0 ltac:(lia)) as Hlen.
  unfold replace in Heq. rewrite Heq in Hlen. simpl in Hlen. lia.
Qed.

Lemma append_assoc (a b c : string) : (a ++ b) ++ c = a ++ (b ++ c).
Proof.
  induction a as [| x a IH]; [done |].
  change (String x ((a ++ b) ++ c) = String x (a ++ (b ++ c))). by rewrite IH.
Qed.

(** The converted file never has the path of its source. *)
Lemma processed_path_differs (p : string) : fst (splitext p) ++ "_processed.wav" ≠ p.
Proof.
  destruct (splitext_spec p) as [Hp Hext]. intros Heq.
  rewrite <- Hp in Heq at 2. apply append_inv_head in Heq.
  destruct Hext as [Hext | [s Hext]]; rewrite Hext in Heq; discriminate.
Qed.

Section TwoStep.



End TwoStep.

(** Turns the tests of [os.path.exists] met on the way into memberships. *)
Ltac exists_hyps :=
  cbn [files log] in *;
  repeat match goal with
  | H : negb _ = true |- _ => apply negb_true_iff in H
  | H : negb _ = false |- _ => apply negb_false_iff in H
  | H : bool_decide _ = true |- _ => apply bool_decide_eq_true in H
  | H : bool_decide _ = false |- _ => apply bool_decide_eq_false in H
  end.

Ltac open_process_audio :=
  unfold AudioProcessorMore.process_audio, AudioProcessorMore.run_ffmpeg,
    AudioProcessor._get_audio_duration, os_remove.

Section ProcessAudio.
Variable w : World.
Variable ffmpeg_to_wav : list Event -> path -> path -> option string.


(** X16: the percentages reported by [process_audio] never go back, and a
    successful conversion reports 55, 60, 65 and 75, with 68 before 75 when
    it went through the intermediate mp3. *)
Theorem process_audio_progress input_path output_path cb st :
  let run := AudioProcessorMore.process_audio w ffmpeg_to_wav input_path output_path
               cb st in
  (∃ delta,
     percentages (trace (snd run)) = (percentages (trace st) ++ delta)%list
     ∧ nondecreasing delta)
  ∧ (∀ out, fst run = inr out → cb = true →
       ∃ mid, (mid = [] ∨ mid = [68%Q])
         ∧ percentages (trace (snd run))
           = (percentages (trace st) ++ [55; 60; 65]%Q ++ mid ++ [75%Q])%list).
Proof.
  cbv zeta. open_process_audio. by_cases.
  all: split;
    [ eexists; split;
      [ unfold percentages; rewrite ?omap_app; cbn [omap list_omap];
        rewrite <- ?app_assoc; cbn [app];
        first [reflexivity | symmetry; apply app_nil_r]
      | cbn [nondecreasing]; unfold Qle; simpl; lia ]
    | intros out' Hout Hcb; try discriminate Hout; try discriminate Hcb;
      unfold percentages; rewrite ?omap_app; cbn [omap list_omap];
      rewrite <- ?app_assoc; cbn [app];
      first [ exists []; split; [by left | reflexivity]
            | exists [68%Q]; split; [by right | reflexivity] ] ].
Qed.

Lemma temp_removed (out temp_mp3 : path) (fs : gset path) :
  ({[out]} ∪ ({[temp_mp3]} ∪ fs)) ∖ {[temp_mp3]} = ({[out]} ∪ fs) ∖ {[temp_mp3]}.
Proof.
  apply set_eq. intros x.
  rewrite !elem_of_difference, !elem_of_union, !elem_of_singleton. tauto.
Qed.

(** X17: a successful [process_audio] with the default output path returns
    [<root>_processed.wav], where [<root>] is the input path without its
    extension.  That path differs from the input, the file exists afterwards,
    and no file that existed before is lost except the temporary mp3, which
    is the only path ever removed. *)
Theorem process_audio_default_output input_path cb st out st' :
  AudioProcessorMore.process_audio w ffmpeg_to_wav input_path None cb st
  = (inr out, st') →
  let temp_mp3 := replace out ".wav" "_temp.mp3" in
  out = fst (splitext input_path) ++ "_processed.wav"
  ∧ out ≠ input_path
  ∧ temp_mp3 ≠ out
  ∧ input_path ∈ files st
  ∧ out ∈ files st'
  ∧ (files st' = {[out]} ∪ files st
     ∨ files st' = ({[out]} ∪ files st) ∖ {[temp_mp3]}).
Proof.
  intros Hrun temp_mp3.
  assert (out = fst (splitext input_path) ++ "_processed.wav") as Hout.
  { revert Hrun. open_process_audio. cbn [truthy]. by_cases.
    all: intros Heq; by simplify_eq. }
  assert (temp_mp3 ≠ out) as Htemp.
  { subst temp_mp3. rewrite Hout.
    change "_processed.wav" with ("_processed" ++ ".wav").
    rewrite <- append_assoc. apply temp_mp3_differs. }
  assert (input_path ∈ files st
          ∧ (files st' = {[out]} ∪ files st
             ∨ files st' = ({[out]} ∪ files st) ∖ {[temp_mp3]})) as [Hin Hfiles].
  { clear Htemp. revert Hrun. subst temp_mp3. rewrite Hout. clear Hout.
    open_process_audio. cbn [truthy]. by_cases.
    all: intros Heq; simplify_eq; exists_hyps.
    all: split; [done |].
    all: first [ by left | right; apply temp_removed
               | exfalso;
                 match goal with
                 | H : _ ∉ _ |- _ =>
                     apply H; rewrite !elem_of_union, !elem_of_singleton; tauto
                 end ]. }
  split; [done |]. split; [rewrite Hout; apply processed_path_differs |].
  split; [done |]. split; [done |]. split; [| done].
  destruct Hfiles as [-> | ->].
  - apply elem_of_union. left. by apply elem_of_singleton.
  - apply elem_of_difference. split.
    + apply elem_of_union. left. by apply elem_of_singleton.
    + rewrite elem_of_singleton. congruence.
Qed.

End ProcessAudio.

Section CompressContract.
Variable w : World.


End CompressContract.

(** * [_format_time] *)




(** * [safe_filename] *)

Section SafeFilenameProps.
Variable isspace : N -> bool.

Lemma lstrip_clean s : clean isspace (lstrip isspace s).
Proof.
  induction s as [| c s IH]; [done |]. cbn [lstrip].
  by destruct (isspace c) eqn:Hc.
Qed.

Lemma lstrip_id s : clean isspace s → lstrip isspace s = s.
Proof. destruct s as [| c s]; [done |]. cbn [clean lstrip]. by intros ->. Qed.

Lemma lstrip_suffix s : ∃ pre, s = (pre ++ lstrip isspace s)%list.
Proof.
  induction s as [| c s [pre IH]]; [by exists [] |]. cbn [lstrip].
  destruct (isspace c); [| by exists []].
  exists (c :: pre). cbn [app]. by rewrite <- IH.
Qed.

Lemma clean_app_l (x y : list N) : clean isspace (x ++ y)%list → clean isspace x.
Proof. by destruct x. Qed.

Lemma strip_parts s :
  ∃ pre post, s = (pre ++ strip isspace s ++ post)%list
    ∧ clean isspace (strip isspace s) ∧ clean isspace (rev (strip isspace s)).
Proof.
  unfold strip.
  destruct (lstrip_suffix s) as [pre Hpre].
  destruct (lstrip_suffix (rev (lstrip isspace s))) as [post Hpost].
  set (a := lstrip isspace s) in *. set (b := lstrip isspace (rev a)) in *.
  assert (a = (rev b ++ rev post)%list) as Ha.
  { rewrite <- (rev_involutive a), Hpost. apply rev_app_distr. }
  exists pre, (rev post). split_and!.
  - by rewrite <- Ha.
  - apply (clean_app_l _ (rev post)). rewrite <- Ha. apply lstrip_clean.
  - rewrite rev_involutive. apply lstrip_clean.
Qed.

Lemma strip_id s : clean isspace s → clean isspace (rev s) → strip isspace s = s.
Proof.
  intros H1 H2. unfold strip. rewrite (lstrip_id s H1), (lstrip_id _ H2).
  apply rev_involutive.
Qed.

Lemma sub_illegal_legal name : Forall (fun c => illegal c = false) (sub_illegal name).
Proof.
  unfold sub_illegal. apply Forall_fmap, Forall_forall. intros c _.
  cbn [compose]. by destruct (illegal c) eqn:Hc.
Qed.

Lemma sub_illegal_id s : Forall (fun c => illegal c = false) s → sub_illegal s = s.
Proof.
  unfold sub_illegal. induction 1 as [| c s Hc _ IH]; [done |].
  rewrite fmap_cons, Hc. by f_equal.
Qed.

(** X20: for a non-negative limit the name made by [safe_filename] has at most
    [max_length] characters, none of them one of the nine illegal ones, and
    no whitespace at either end. *)
Theorem safe_filename_safe (name : list N) (max_length : Z) :
  (0 <= max_length)%Z →
  let safe_name := safe_filename isspace name max_length in
  (Z.of_nat (length safe_name) <= max_length)%Z
  ∧ Forall (fun c => c ∉ illegal_chars) safe_name
  ∧ (∀ c rest, safe_name = c :: rest → isspace c = false)
  ∧ (∀ c init, safe_name = (init ++ [c])%list → isspace c = false).
Proof.
  intros Hmax. cbv zeta. unfold safe_filename.
  set (cut := if (max_length <? _)%Z then _ else _).
  assert ((Z.of_nat (length cut) <= max_length)%Z
          ∧ Forall (fun c => illegal c = false) cut) as [Hlen Hlegal].
  { subst cut. pose proof (sub_illegal_legal name) as Hl.
    destruct (Z.ltb_spec max_length (Z.of_nat (length (sub_illegal name)))) as [Hlt | Hge].
    - unfold slice_to. destruct (Z.leb_spec 0 max_length); [| lia].
      split; [rewrite length_take; lia | by apply Forall_take].
    - split; [lia | done]. }
  destruct (strip_parts cut) as (pre & post & Hcut & Hhead & Htail).
  set (r := strip isspace cut) in *. split_and!.
  - apply (f_equal length) in Hcut. rewrite !length_app in Hcut. lia.
  - rewrite Hcut in Hlegal. apply Forall_app in Hlegal as [_ Hlegal].
    apply Forall_app in Hlegal as [Hlegal _].
    eapply Forall_impl; [exact Hlegal |]. intros c Hc. cbn beta in Hc.
    unfold illegal in Hc. by apply bool_decide_eq_false in Hc.
  - intros c rest Hr. by rewrite Hr in Hhead.
  - intros c init Hr. rewrite Hr, rev_app_distr in Htail. done.
Qed.

(** X21: [safe_filename] changes nothing in a name that is already safe: with
    a non-negative limit, applying it to its own result gives that result
    again. *)
Theorem safe_filename_idempotent (name : list N) (max_length : Z) :
  (0 <= max_length)%Z →
  safe_filename isspace (safe_filename isspace name max_length) max_length
  = safe_filename isspace name max_length.
Proof.
  intros Hmax.
  assert (∀ s, (Z.of_nat (length s) <= max_length)%Z
               → Forall (fun c => illegal c = false) s
               → clean isspace s → clean isspace (rev s)
               → safe_filename isspace s max_length = s) as Hfix.
  { intros s Hlen Hlegal H1 H2. unfold safe_filename.
    rewrite (sub_illegal_id s Hlegal).
    destruct (Z.ltb_spec max_length (Z.of_nat (length s))); [lia |].
    by apply strip_id. }
  unfold safe_filename at 2 3.
  set (cut := if (max_length <? _)%Z then _ else _).
  assert ((Z.of_nat (length cut) <= max_length)%Z
          ∧ Forall (fun c => illegal c = false) cut) as [Hlen Hlegal].
  { subst cut. pose proof (sub_illegal_legal name) as Hl.
    destruct (Z.ltb_spec max_length (Z.of_nat (length (sub_illegal name)))) as [Hlt | Hge].
    - unfold slice_to. destruct (Z.leb_spec 0 max_length); [| lia].
      split; [rewrite length_take; lia | by apply Forall_take].
    - split; [lia | done]. }
  destruct (strip_parts cut) as (pre & post & Hcut & Hhead & Htail).
  apply Hfix; [| | done | done].
  - apply (f_equal length) in Hcut. rewrite !length_app in Hcut. lia.
  - rewrite Hcut in Hlegal. apply Forall_app in Hlegal as [_ Hlegal].
    by apply Forall_app in Hlegal as [Hlegal _].
Qed.

End SafeFilenameProps.

(** * The audio steps of [ProcessThread.run] *)

Ltac read_percentages :=
  unfold percentages; rewrite ?omap_app; cbn [omap list_omap];
  rewrite <- ?app_assoc; cbn [app];
  first [reflexivity | symmetry; apply app_nil_r].

Ltac in_list :=
  repeat first [apply list_elem_of_here | apply list_elem_of_further].

Section AudioStepsProps.
Variable w : World.
Variable ffmpeg_to_wav : list Event -> path -> path -> option string.

(** What a conversion with a callback reports. *)
Lemma process_audio_reports input_path output_path st :
  let run := AudioProcessorMore.process_audio w ffmpeg_to_wav input_path output_path
               true st in
  requests (trace (snd run)) = requests (trace st)
  ∧ ∃ delta,
      percentages (trace (snd run)) = (percentages (trace st) ++ delta)%list
      ∧ delta ∈ [[55]; [55; 60; 65]; [55; 60; 65; 75]; [55; 60; 65; 68];
                 [55; 60; 65; 68; 75]]%Q
      ∧ (∀ out, fst run = inr out →
           delta = [55; 60; 65; 75]%Q ∨ delta = [55; 60; 65; 68; 75]%Q).
Proof.
  cbv zeta. open_process_audio. by_cases.
  all: split; [read_trace |].
  all: eexists; split; [read_percentages |].
  all: split; [in_list |].
  all: intros out' Hout; try discriminate Hout; first [by left | by right].
Qed.

(** What a local job of a fresh transcriber reports. *)
Lemma local_reports self audio_path language st :
  _is_api_model self = false → model st = false →
  let run := transcribe w self audio_path language true st in
  requests (trace (snd run)) = requests (trace st)
  ∧ ∃ delta,
      percentages (trace (snd run)) = (percentages (trace st) ++ delta)%list
      ∧ delta ∈ [[]; [75]; [75; 80; 82]; [75; 80; 82; 99]]%Q
      ∧ (∀ result, fst run = inr result →
           delta = [75; 80; 82]%Q ∨ delta = [75; 80; 82; 99]%Q).
Proof.
  intros Hapi Hmodel. cbv zeta.
  unfold transcribe, load_model, transcribe_local, model_transcribe.
  rewrite Hapi. by_cases.
  all: split; [read_trace |].
  all: eexists; split; [read_percentages |].
  all: split; [in_list |].
  all: intros out' Hout; try discriminate Hout; first [by left | by right].
Qed.

Lemma init_state st : snd (AudioProcessor.init w st) = st.
Proof. unfold AudioProcessor.init. by by_cases. Qed.

Lemma os_getsize_state p st : snd (os_getsize w p st) = st.
Proof. unfold os_getsize. by by_cases. Qed.

(** X22: with a local model the percentages that the audio steps of the
    pipeline report never go back and no request is sent.  A successful run
    reports 55, 60, 65, possibly 68, then 75, 75, 80 and 82, and 99 unless
    Whisper had to be run again without fp16. *)
Theorem audio_steps_progress model_to_use api_key video_path st :
  _is_api_model (__init__ model_to_use api_key None) = false →
  let run := run_audio_steps w ffmpeg_to_wav model_to_use api_key video_path st in
  (∃ delta,
     percentages (trace (snd run)) = (percentages (trace st) ++ delta)%list
     ∧ nondecreasing delta)
  ∧ requests (trace (snd run)) = requests (trace st)
  ∧ (∀ result, fst run = inr result →
       ∃ mid last,
         (mid = [] ∨ mid = [68%Q]) ∧ (last = [] ∨ last = [99%Q])
         ∧ percentages (trace (snd run))
           = (percentages (trace st)
              ++ [55; 60; 65]%Q ++ mid ++ [75; 75; 80; 82]%Q ++ last)%list).
Proof.
  intros Hapi. cbv zeta. unfold run_audio_steps, bind, new_transcriber.
  pose proof (init_state st) as Hinit.
  destruct (AudioProcessor.init w st) as [[e | []] s1]; cbn [snd] in Hinit; subst s1.
  { cbn [fst snd]. split_and!; [| done | done].
    exists []. by rewrite app_nil_r. }
  destruct (process_audio_reports video_path None st) as (Hreq1 & d1 & Hd1 & Hin1 & Hok1).
  destruct (AudioProcessorMore.process_audio w ffmpeg_to_wav video_path None true st)
    as [[e | out] s2]; cbn [fst snd] in *.
  { split_and!; [| done | done]. exists d1. split; [done |].
    repeat (apply elem_of_cons in Hin1 as [-> | Hin1]);
      [.. | by apply elem_of_nil in Hin1].
    all: cbn [nondecreasing]; unfold Qle; simpl; lia. }
  pose proof (os_getsize_state out s2) as Hsize.
  destruct (os_getsize w out s2) as [[e | audio_size] s3]; cbn [snd] in Hsize; subst s3.
  { cbn [fst snd]. split_and!; [| done | done]. exists d1. split; [done |].
    repeat (apply elem_of_cons in Hin1 as [-> | Hin1]);
      [.. | by apply elem_of_nil in Hin1].
    all: cbn [nondecreasing]; unfold Qle; simpl; lia. }
  set (s4 := {| files := files s2; trace := trace s2; client := false; model := false |}).
  destruct (local_reports (__init__ model_to_use api_key None) out None s4 Hapi eq_refl)
    as (Hreq2 & d2 & Hd2 & Hin2 & Hok2).
  change (trace s4) with (trace s2) in *.
  split_and!.
  - exists (d1 ++ d2)%list. split; [by rewrite Hd2, Hd1, app_assoc |].
    repeat (apply elem_of_cons in Hin1 as [-> | Hin1]);
      [.. | by apply elem_of_nil in Hin1].
    all: repeat (apply elem_of_cons in Hin2 as [-> | Hin2]);
      [.. | by apply elem_of_nil in Hin2].
    all: cbn [app nondecreasing]; unfold Qle; simpl; lia.
  - by rewrite Hreq2.
  - intros result Hres. rewrite Hd2, Hd1.
    destruct (Hok1 out eq_refl) as [-> | ->], (Hok2 result Hres) as [-> | ->].
    + exists [], []. split_and!; [by left | by left |]. by rewrite <- app_assoc.
    + exists [], [99%Q]. split_and!; [by left | by right |]. by rewrite <- app_assoc.
    + exists [68%Q], []. split_and!; [by right | by left |]. by rewrite <- app_assoc.
    + exists [68%Q], [99%Q]. split_and!; [by right | by right |]. by rewrite <- app_assoc.
Qed.

End AudioStepsProps.

(** ** The further theorems applied to the scenarios *)


Lemma local_job_stays_local_witness :
  requests (trace (snd (transcribe host_local base_model "talk.wav" None true fresh))) = []
  ∧ dispatches (trace (snd (transcribe host_local base_model "talk.wav" None true fresh)))
    = []
  ∧ compressions (trace (snd (transcribe host_local base_model "talk.wav" None true fresh)))
    = [].
Proof.
  apply (local_job_stays_local host_local base_model "talk.wav" None true fresh).
  reflexivity.
Defined.

Lemma job_preconditions_witness :
  transcribe host_local base_model "lost.wav" None true fresh
    = (inl (Exn FileNotFoundError ("音频文件不存在: " ++ "lost.wav")), fresh)
  ∧ transcribe host_local (__init__ "whisper-1" None None) "talk.wav" None true fresh
    = (inl (Exn ValueError "使用在线转写模型需要提供 API Key"), fresh).
Proof.
  split.
  - apply (job_preconditions host_local base_model "lost.wav" None true fresh). in_files.
  - apply (job_preconditions host_local (__init__ "whisper-1" None None) "talk.wav" None
             true fresh); [in_files | reflexivity | reflexivity].
Defined.

Lemma local_progress_nondecreasing_witness :
  ∃ delta,
    percentages (trace (snd (transcribe host_local base_model "talk.wav" None true fresh)))
    = (percentages (trace fresh) ++ delta)%list
    ∧ nondecreasing delta.
Proof.
  apply (local_progress_nondecreasing host_local base_model "talk.wav" None true fresh).
  reflexivity.
Defined.

Lemma model_lifecycle_witness :
  let st1 := snd (load_model host_local base_model true fresh) in
  model st1 = true
  ∧ load_model host_local base_model true st1 = (inr tt, st1)
  ∧ model (snd (unload_model st1)) = false.
Proof.
  intros st1.
  destruct (model_lifecycle host_local base_model true fresh st1)
    as (Hmodel & Hagain & Hunload & _); [reflexivity | run |].
  split; [exact Hmodel |]. split; [exact Hagain |]. by rewrite Hunload.
Defined.


Lemma empty_segmentation_witness :
  fst (_transcribe_chunked host_local "talk.wav" "gpt-4o-transcribe" (Some "zh") false
         fresh)
  = inr {| r_text := ""; r_language := Some "zh"; r_duration := None;
           r_segments := Some [];
           r_usage := Some (UsageDict {| sum_prompt := 0; sum_completion := 0;
                                         sum_total := 0 |}) |}.
Proof.
  rewrite (empty_segmentation host_local "talk.wav" "gpt-4o-transcribe" (Some "zh") false
             fresh (snd (segment_audio host_local "talk.wav" false fresh)));
    [reflexivity | run].
Defined.


Lemma single_shot_success_witness :
  ∃ st',
    transcribe (scenario true 100 (1 * MB) None accept_all never) gpt4o "talk.wav" None
      false fresh
    = (inr {| r_text := "text of talk.wav"; r_language := Some "auto";
              r_duration := Some 0%Q; r_segments := None; r_usage := None |}, st')
    ∧ requests (trace st') = [primary_request gpt4o "talk.wav" None].
Proof.
  pose (host := scenario true 100 (1 * MB) None accept_all never).
  pose (s1 := snd (prepare_upload host gpt4o "talk.wav" false (started false fresh))).
  destruct (single_shot_success host gpt4o "talk.wav" None false fresh "talk.wav" s1
              (transcript_of (primary_request gpt4o "talk.wav" None) None))
    as (st' & Hrun & Hreq & _).
  - by apply single_shot_job_short.
  - run.
  - run.
  - exists st'. split; [exact Hrun | exact Hreq].
Defined.

Lemma oversize_without_ffmpeg_witness :
  requests (trace (snd (transcribe host_oversize_without_ffmpeg whisper1 "talk.wav" None
                          true fresh))) = []
  ∧ requests (trace (snd (transcribe host_oversize_without_ffmpeg gpt4o "talk.wav" None
                            true fresh)))
    = [fallback_request "talk.wav" None].
Proof.
  split.
  - destruct (oversize_without_ffmpeg host_oversize_without_ffmpeg whisper1 "talk.wav" None
                true fresh) as (e & _ & _ & Hbase & _).
    + reflexivity.
    + reflexivity.
    + in_files.
    + intros tr. reflexivity.
    + intros tr. vm_compute. reflexivity.
    + by destruct (Hbase eq_refl) as [_ Hreq].
  - destruct (oversize_without_ffmpeg host_oversize_without_ffmpeg gpt4o "talk.wav" None
                true fresh) as (e & _ & _ & _ & Hother).
    + reflexivity.
    + reflexivity.
    + in_files.
    + intros tr. reflexivity.
    + intros tr. vm_compute. reflexivity.
    + apply Hother. discriminate.
Defined.






Lemma process_audio_progress_witness :
  ∃ mid, (mid = [] ∨ mid = [68%Q])
    ∧ percentages (trace (snd (AudioProcessorMore.process_audio host_local wav_ok
                                 "talk.wav" None true fresh)))
      = (percentages (trace fresh) ++ [55; 60; 65]%Q ++ mid ++ [75%Q])%list.
Proof.
  destruct (process_audio_progress host_local wav_ok "talk.wav" None true fresh)
    as [_ Hok].
  apply (Hok "talk_processed.wav"); [run | reflexivity].
Defined.

Lemma process_audio_default_output_witness :
  let run := AudioProcessorMore.process_audio host_local wav_ok "talk.wav" None true fresh in
  fst run = inr "talk_processed.wav"
  ∧ "talk_processed.wav" ∈ files (snd run)
  ∧ "talk.wav" ∈ files fresh.
Proof.
  intros run.
  destruct (process_audio_default_output host_local wav_ok "talk.wav" true fresh
              "talk_processed.wav" (snd run)) as (_ & _ & _ & Hin & Hout & _); [run |].
  split; [run |]. split; [exact Hout | exact Hin].
Defined.


Lemma safe_filename_safe_witness :
  let safe_name := safe_filename space_only [32; 97; 47; 98; 32; 99]%N 4 in
  (Z.of_nat (length safe_name) <= 4)%Z
  ∧ Forall (fun c => c ∉ illegal_chars) safe_name.
Proof.
  intros safe_name.
  destruct (safe_filename_safe space_only [32; 97; 47; 98; 32; 99]%N 4)
    as (Hlen & Hlegal & _); [lia |].
  split; [exact Hlen | exact Hlegal].
Defined.

Lemma safe_filename_idempotent_witness :
  safe_filename space_only (safe_filename space_only [32; 97; 47; 98; 32; 99]%N 4) 4
  = safe_filename space_only [32; 97; 47; 98; 32; 99]%N 4.
Proof. apply (safe_filename_idempotent space_only). lia. Defined.

Lemma audio_steps_progress_witness :
  requests (trace (snd (run_audio_steps host_local wav_ok "base" None "talk.wav" fresh)))
  = requests (trace fresh).
Proof.
  apply (audio_steps_progress host_local wav_ok "base" None "talk.wav" fresh).
  reflexivity.
Defined.

(** The runs behind the witnesses. *)
Example conversion_of_a_long_recording :
  AudioProcessorMore.target_bitrate 2000 = Some 83%Z
  ∧ fst (AudioProcessorMore.process_audio host_local wav_ok "talk.wav" None true fresh)
    = inr "talk_processed.wav"
  ∧ files (snd (AudioProcessorMore.process_audio host_local wav_ok "talk.wav" None true
                  fresh)) = {["talk_processed.wav"; "talk.wav"]}
  ∧ percentages (trace (snd (run_audio_steps host_local wav_ok "base" None "talk.wav"
                               fresh)))
    = [55; 60; 65; 68; 75; 75; 80; 82; 99]%Q
  ∧ _format_time (754 # 10) = "01:15"
  ∧ safe_filename space_only [32; 97; 47; 98; 32; 99]%N 4 = [97; 95; 98]%N.
Proof. split_and!; try run. Qed.
